(** * Command and Observer patterns: a shallow embedding of the two demo files

    The development follows the two TypeScript sources:
    - the command demo ([Action], [Actor], [BuyCommand], [SellCommand],
      [ModifyUnitCommand], [InputHandler], [Unit]), in [Module Command];
    - [observer.ts] ([EventManager], [Editor], the two concrete listeners and
      [Application]), in [Module Observer].

    Objects are heap cells addressed by a reference, methods are functions
    that pass the receiver and the heap explicitly, and a JavaScript run-time
    exception is the [Throw] outcome of a [result]. *)

From Stdlib Require Import ZArith SpecFloat.
From stdpp Require Import gmap strings list fin_maps.

Open Scope Z_scope.
Open Scope string_scope.
Open Scope list_scope.

(** ** Outcomes of a method call *)

(** The only exception the modelled code can raise by itself is the
    [TypeError] of a property access on [undefined]; a listener may throw
    whatever it likes, which is [Error]. *)
Inductive exn : Type :=
  | TypeError (what : string)
  | Error (what : string).

Inductive result (A : Type) : Type :=
  | Ok (a : A)
  | Throw (e : exn).
Arguments Ok {A} a.
Arguments Throw {A} e.

Definition is_Ok {A} (r : result A) : bool :=
  match r with Ok _ => true | Throw _ => false end.

#[global] Instance result_ret : MRet result := fun A a => Ok a.

#[global] Instance result_bind : MBind result := fun A B k r =>
  match r with
  | Ok a => k a
  | Throw e => Throw e
  end.

(** ** JavaScript numbers

    A JavaScript number is an IEEE 754 binary64 value.  The values and the
    two operations the demo uses are those of the specification of binary
    floating point of the Standard Library ([spec_float], [SFadd], [SFsub])
    at precision 53 and maximal exponent 1024, which round to nearest, ties
    to even: signed zeros, infinities, one NaN and the finite values.  A
    [number] field that was never assigned holds [undefined], which [+] and
    [-] convert to NaN.  The JavaScript numbers are the values [Double f]
    with [valid_binary prec emax f]; what is stated for every [number]
    below does not depend on the arithmetic. *)
Definition prec : Z := 53.
Definition emax : Z := 1024.

#[global] Instance spec_float_eq_dec : EqDecision spec_float.
Proof. solve_decision. Defined.

Inductive number : Type :=
  | Undefined
  | Double (f : spec_float).

#[global] Instance number_eq_dec : EqDecision number.
Proof. solve_decision. Defined.

(** The value [NaN]. *)
Definition NaN : number := Double S754_nan.

(** The number an integer literal denotes: the double nearest to it. *)
Definition Num (z : Z) : number :=
  Double (binary_normalize prec emax z 0 false).

(** [ToNumber]: [undefined] becomes NaN. *)
Definition ToNumber (a : number) : spec_float :=
  match a with
  | Undefined => S754_nan
  | Double f => f
  end.

(** [a + b] on two values that are numbers or [undefined]. *)
Definition plus (a b : number) : number :=
  Double (SFadd prec emax (ToNumber a) (ToNumber b)).

(** [a - b] on two values that are numbers or [undefined]. *)
Definition minus (a b : number) : number :=
  Double (SFsub prec emax (ToNumber a) (ToNumber b)).

(** *** Safe integers

    Notions used to state and prove what the two operations do on integers:
    the integers below 2^53 in magnitude ([Number.isSafeInteger]) are
    doubles, and a sum or difference of two of them that is safe again is
    computed without rounding. *)
Definition safe_integer (z : Z) : Prop := - 2 ^ 53 < z < 2 ^ 53.

(** The integer a double denotes, when it denotes one. *)
Definition integer_of (f : spec_float) : Z :=
  match f with
  | S754_finite s m e => cond_Zopp s (Zpos m / 2 ^ (- e))
  | _ => 0
  end.

(** [k] doublings of a mantissa. *)
Definition shl (k : nat) (m : positive) : positive := Nat.iter k xO m.

(** The doublings that bring a mantissa of at most 53 digits to 53
    digits. *)
Definition normal_shift (m : positive) : nat :=
  Z.to_nat (53 - Zpos (digits2_pos m)).

(** The double that a non-zero safe integer of sign [s] and magnitude [m]
    denotes. *)
Definition normal (s : bool) (m : positive) : spec_float :=
  S754_finite s (shl (normal_shift m) m) (Zpos (digits2_pos m) - 53).

(** The alignment shift of the sum of two such doubles. *)
Definition common_shift (mx my : positive) : nat :=
  Z.to_nat (- Z.min (Zpos (digits2_pos mx) - 53) (Zpos (digits2_pos my) - 53)).

(* ================================================================== *)
(** * The command demo *)
(* ================================================================== *)

Module Command.

(** [enum Action] *)
Inductive Action : Type :=
  | BUY_ACTION
  | SELL_ACTION.

#[global] Instance Action_eq_dec : EqDecision Action.
Proof. solve_decision. Defined.

Definition Action_value (a : Action) : string :=
  match a with
  | BUY_ACTION => "BUY"
  | SELL_ACTION => "SELL"
  end.

(** *** [class Unit] *)

Record Unit : Type := mkUnit { _value : number }.

(** A reference to a [Unit] object, and the heap of [Unit] objects. *)
Definition uref : Type := nat.
Abbreviation heap := (gmap nat Unit).

(** [new Unit()]: the field [_value] has no initialiser. *)
Definition new_Unit (h : heap) : uref * heap :=
  let u := fresh (dom h) in
  (u, <[u := mkUnit Undefined]> h).

(** A method call on a reference that designates no object is the
    [TypeError] of JavaScript. *)
Definition deref (u : uref) (h : heap) : result Unit :=
  match h !! u with
  | Some o => Ok o
  | None => Throw (TypeError "unit is undefined")
  end.

(** [get value() { return this._value; }] *)
Definition get_value (u : uref) (h : heap) : result number :=
  o ← deref u h; Ok (_value o).

(** [set value(value) { this._value = value; }] *)
Definition set_value (u : uref) (value : number) (h : heap) : result heap :=
  _ ← deref u h; Ok (<[u := mkUnit value]> h).

(** [moveTo(value) { this._value += value; }] *)
Definition moveTo (u : uref) (value : number) (h : heap) : result heap :=
  o ← deref u h; Ok (<[u := mkUnit (plus (_value o) value)]> h).

(** *** [class ModifyUnitCommand]

    [constructor(private unit: Unit, private value: number,
                 private prevValue: number) { }] *)
Record ModifyUnitCommand : Type := mkModifyUnitCommand {
  unit : uref;
  value : number;
  prevValue : number
}.

(** [execute() { this.prevValue = this.unit.value;
                 this.unit.moveTo(this.value); }]
    The receiver is returned with its updated field. *)
Definition execute (this : ModifyUnitCommand) (h : heap)
  : result (ModifyUnitCommand * heap) :=
  v ← get_value (unit this) h;
  let this' := mkModifyUnitCommand (unit this) (value this) v in
  h' ← moveTo (unit this') (value this') h;
  Ok (this', h').

(** [undo() { this.unit.moveTo(this.prevValue); }] *)
Definition undo (this : ModifyUnitCommand) (h : heap)
  : result (ModifyUnitCommand * heap) :=
  h' ← moveTo (unit this) (prevValue this) h;
  Ok (this, h').

(** [execute] followed by [undo] on the same command object. *)
Definition execute_then_undo (this : ModifyUnitCommand) (h : heap)
  : result (ModifyUnitCommand * heap) :=
  '(this', h') ← execute this h;
  undo this' h'.

(** *** [class Actor] and the two stateless commands

    [console.log] appends a line to the console. *)
Definition console : Type := list string.

Definition buy (out : console) : console := out ++ ["buy"].
Definition sell (out : console) : console := out ++ ["sell"].

Inductive SimpleCommand : Type :=
  | BuyCommand
  | SellCommand.

Definition execute_simple (c : SimpleCommand) (out : console) : console :=
  match c with
  | BuyCommand => buy out
  | SellCommand => sell out
  end.

(** *** [class InputHandler] *)

Record InputHandler : Type := mkInputHandler {
  buyCommand : SimpleCommand;
  sellCommand : SimpleCommand;
  selectedUnit : option uref
}.

(** [constructor() { this.buyCommand = new BuyCommand();
                     this.sellCommand = new SellCommand(); }] *)
Definition new_InputHandler : InputHandler :=
  mkInputHandler BuyCommand SellCommand None.

(** What a poll does to its environment, in order: the calls of the two free
    functions and the constructions of a command. *)
Inductive event : Type :=
  | EvGetSelectedUnit (u : uref)
  | EvIsTriggered (a : Action)
  | EvNewCommand (c : ModifyUnitCommand).

(** [function getSelectedUnit(): Unit { return new Unit(); }] *)
Definition getSelectedUnit (h : heap) : uref * heap := new_Unit h.

Section Poll.

(** The trigger predicate sampled by a poll.  The demo's stub is
    [isTriggered_stub] below. *)
Variable isTriggered : Action -> bool.

(** [handleInput()] *)
Definition handleInput (this : InputHandler)
  : list event * option SimpleCommand :=
  if isTriggered BUY_ACTION then
    ([EvIsTriggered BUY_ACTION], Some (buyCommand this))
  else if isTriggered SELL_ACTION then
    ([EvIsTriggered BUY_ACTION; EvIsTriggered SELL_ACTION],
     Some (sellCommand this))
  else
    ([EvIsTriggered BUY_ACTION; EvIsTriggered SELL_ACTION], None).

(** [this.selectedUnit.value], with the receiver field read again. *)
Definition selectedUnit_value (this : InputHandler) (h : heap)
  : result number :=
  match selectedUnit this with
  | Some u => get_value u h
  | None => Throw (TypeError "selectedUnit is undefined")
  end.

(** [new ModifyUnitCommand(this.selectedUnit, newValue,
                           this.selectedUnit.value)] *)
Definition new_ModifyUnitCommand_selected (this : InputHandler) (newValue : number)
  (h : heap) : result ModifyUnitCommand :=
  match selectedUnit this with
  | Some u => p ← get_value u h; Ok (mkModifyUnitCommand u newValue p)
  | None => Throw (TypeError "selectedUnit is undefined")
  end.

(** [handleUnitInput()]: the events up to the point reached, and the
    outcome (the receiver, the heap and the command returned, or the
    exception). *)
Definition handleUnitInput (this : InputHandler) (h : heap)
  : list event * result (InputHandler * heap * option ModifyUnitCommand) :=
  let '(u, h1) := getSelectedUnit h in
  let this1 := mkInputHandler (buyCommand this) (sellCommand this) (Some u) in
  let t0 := [EvGetSelectedUnit u] in
  if isTriggered BUY_ACTION then
    let t1 := t0 ++ [EvIsTriggered BUY_ACTION] in
    match selectedUnit_value this1 h1 with
    | Throw e => (t1, Throw e)
    | Ok v =>
        let newValue := plus v (Num 1) in
        match new_ModifyUnitCommand_selected this1 newValue h1 with
        | Throw e => (t1, Throw e)
        | Ok c => (t1 ++ [EvNewCommand c], Ok (this1, h1, Some c))
        end
    end
  else if isTriggered SELL_ACTION then
    let t1 := t0 ++ [EvIsTriggered BUY_ACTION; EvIsTriggered SELL_ACTION] in
    match selectedUnit_value this1 h1 with
    | Throw e => (t1, Throw e)
    | Ok v =>
        let newValue := minus v (Num 1) in
        match new_ModifyUnitCommand_selected this1 newValue h1 with
        | Throw e => (t1, Throw e)
        | Ok c => (t1 ++ [EvNewCommand c], Ok (this1, h1, Some c))
        end
    end
  else
    (t0 ++ [EvIsTriggered BUY_ACTION; EvIsTriggered SELL_ACTION],
     Ok (this1, h1, None)).

(** [demo()] *)
Definition demo (out : console) : console :=
  let inputHandler := new_InputHandler in
  match snd (handleInput inputHandler) with
  | Some command => execute_simple command out
  | None => out
  end.

End Poll.

(** [function isTriggered(action: Action): boolean { return true; }] *)
Definition isTriggered_stub (action : Action) : bool := true.

(** *** Notions used to state the properties *)

(** The value a unit holds once a method has returned. *)
Definition value_after (u : uref)
  (r : result (ModifyUnitCommand * heap)) : result number :=
  '(_, h) ← r; get_value u h.

(** The triggers in the order of their priority. *)
Definition priority : list Action := [BUY_ACTION; SELL_ACTION].

(** The first trigger that fired, in the words of the specification. *)
Definition first_triggered (isTriggered : Action -> bool) : option Action :=
  List.find isTriggered priority.

(** The triggers a poll samples: in order, up to the first that fired. *)
Fixpoint sampled (isTriggered : Action -> bool) (acts : list Action)
  : list Action :=
  match acts with
  | [] => []
  | a :: rest => a :: (if isTriggered a then [] else sampled isTriggered rest)
  end.

(** The stateless command the handler keeps for a trigger. *)
Definition simple_for (this : InputHandler) (a : Action) : SimpleCommand :=
  match a with
  | BUY_ACTION => buyCommand this
  | SELL_ACTION => sellCommand this
  end.

(** The undoable command a poll builds for a trigger over the unit [u] that
    holds [v]. *)
Definition modify_for (u : uref) (v : number) (a : Action)
  : ModifyUnitCommand :=
  match a with
  | BUY_ACTION => mkModifyUnitCommand u (plus v (Num 1)) v
  | SELL_ACTION => mkModifyUnitCommand u (minus v (Num 1)) v
  end.

(** The units a trace resolved, in order. *)
Definition resolutions (t : list event) : list uref :=
  omap (fun e => match e with EvGetSelectedUnit u => Some u | _ => None end) t.

(** The commands a trace constructed, in order. *)
Definition constructions (t : list event) : list ModifyUnitCommand :=
  omap (fun e => match e with EvNewCommand c => Some c | _ => None end) t.

(** *** Repeated and composed calls *)

(** [execute()] called [n] times in a row on the same command object. *)
Fixpoint execute_n (n : nat) (this : ModifyUnitCommand) (h : heap)
  : result (ModifyUnitCommand * heap) :=
  match n with
  | O => Ok (this, h)
  | S n' => '(this', h') ← execute this h; execute_n n' this' h'
  end.

(** [undo()] called [n] times in a row on the same command object. *)
Fixpoint undo_n (n : nat) (this : ModifyUnitCommand) (h : heap)
  : result (ModifyUnitCommand * heap) :=
  match n with
  | O => Ok (this, h)
  | S n' => '(this', h') ← undo this h; undo_n n' this' h'
  end.

(** [command.execute(actor)] for each command of a list, in order, on one
    console. *)
Definition execute_all (cs : list SimpleCommand) (out : console) : console :=
  foldl (fun o c => execute_simple c o) out cs.

(** The line a stateless command has its actor print. *)
Definition line_of (c : SimpleCommand) : string :=
  match c with
  | BuyCommand => "buy"
  | SellCommand => "sell"
  end.

End Command.

(* ================================================================== *)
(** * observer.ts *)
(* ================================================================== *)

Module Observer.

(** *** The declared module "design-patterns-in-typescript" *)

(** Modelled from the spec: the type [Path], of which the source holds the
    declaration only.  It is the string that the script casts to it. *)
Definition Path : Type := string.

(** Modelled from the spec: the class [File], of which the source holds the
    declaration only.  Its constructor keeps its argument as [name], the
    resource name that the publisher passes as payload. *)
Record File : Type := mkFile { name : Path }.

(** Modelled from the spec: the calls of [File.write] and [System.email],
    of which the source holds the declarations only.  They are the
    persistence and notification sinks of the environment; a call is
    recorded, in order, as an external call, and returns. *)
Inductive io_event : Type :=
  | IoWrite (f : File) (message : option string)
  | IoEmail (email message : string).

(** A listener is an object; the registry holds references to listeners and
    compares them with [!==], that is by reference. *)
Definition Listener : Type := nat.

(** The payload of a notification ([data: any]); the editor passes the file
    name. *)
Definition Data : Type := string.

(** The state the methods and the listeners act on: the [listeners] map of
    the editor's [EventManager], the editor's [file] field ([None] until
    [openFile] assigns it) and the external calls made so far. *)
Record World : Type := mkWorld {
  listeners : gmap string (list Listener);
  file : option File;
  io : list io_event
}.

Definition set_listeners (m : gmap string (list Listener)) (w : World) : World :=
  mkWorld m (file w) (io w).

Definition set_file (f : File) (w : World) : World :=
  mkWorld (listeners w) (Some f) (io w).

Definition do_io (e : io_event) (w : World) : World :=
  mkWorld (listeners w) (file w) (io w ++ [e]).

(** [this.listeners.get(eventType) || []], and with [??] in [notify]: an
    array, even an empty one, is neither falsy nor nullish. *)
Definition listeners_of (eventType : string) (w : World) : list Listener :=
  default [] (listeners w !! eventType).

(** *** [class EventManager] *)

(** [subscribe(eventType, listener)]: the map entry is replaced by a new
    array ([[...eventListeners, listener]]); the array that was there is not
    changed. *)
Definition subscribe (eventType : string) (listener : Listener) (w : World)
  : result World :=
  let eventListeners := listeners_of eventType w in
  Ok (set_listeners (<[eventType := eventListeners ++ [listener]]> (listeners w)) w).

(** [unsubscribe(eventType, listener)]: the map entry is replaced by the
    new array that [filter(l => l !== listener)] returns, also when the key
    had no entry. *)
Definition unsubscribe (eventType : string) (listener : Listener) (w : World)
  : result World :=
  let eventListeners := listeners_of eventType w in
  Ok (set_listeners
        (<[eventType := filter (fun l => l <> listener) eventListeners]> (listeners w))
        w).

(** One invocation of [listener.update(data)], with the state the listener
    was entered in. *)
Record call : Type := mkCall {
  callee : Listener;
  payload : Data;
  seen : World
}.

Definition callees (t : list call) : list Listener := map callee t.

Section Dispatch.

(** What [update] of each listener object does: it may change anything in
    the state, the registry it is called from included, and it may
    throw. *)
Variable update : Listener -> Data -> World -> result World.

(** The [for ... of] loop of [notify] over the array it was given.  An
    exception leaves the loop; the calls made up to it are kept. *)
Fixpoint dispatch (ls : list Listener) (data : Data) (w : World)
  : list call * result World :=
  match ls with
  | [] => ([], Ok w)
  | listener :: rest =>
      match update listener data w with
      | Throw e => ([mkCall listener data w], Throw e)
      | Ok w' =>
          let '(t, r) := dispatch rest data w' in
          (mkCall listener data w :: t, r)
      end
  end.

(** [notify(eventType, data)]: the array under the key is read once, when
    the loop starts. *)
Definition notify (eventType : string) (data : Data) (w : World)
  : list call * result World :=
  dispatch (listeners_of eventType w) data w.

(** *** [class Editor] *)

(** [openFile(path) { this.file = new File(path);
                      this.events.notify("open", this.file.name) }] *)
Definition openFile (path : Path) (w : World) : list call * result World :=
  let w1 := set_file (mkFile path) w in
  match file w1 with
  | Some f => notify "open" (name f) w1
  | None => ([], Throw (TypeError "file is undefined"))
  end.

(** [saveFile() { this.file.write()
                  this.events.notify("save", this.file.name) }] *)
Definition saveFile (w : World) : list call * result World :=
  match file w with
  | None => ([], Throw (TypeError "file is undefined"))
  | Some f =>
      let w1 := do_io (IoWrite f None) w in
      match file w1 with
      | Some f' => notify "save" (name f') w1
      | None => ([], Throw (TypeError "file is undefined"))
      end
  end.

End Dispatch.

(** A sequence of [subscribe] calls for one key. *)
Fixpoint subscribe_all (eventType : string) (ls : list Listener) (w : World)
  : result World :=
  match ls with
  | [] => Ok w
  | l :: rest => w' ← subscribe eventType l w; subscribe_all eventType rest w'
  end.

(** *** The concrete listeners *)

Inductive ListenerObject : Type :=
  | LoggingListener (log : File) (message : string)
  | EmailAlertsListener (emailAddress message : string).

(** [new LoggingListener(log_filename, message)] *)
Definition new_LoggingListener (log_filename : Path) (message : string)
  : ListenerObject :=
  LoggingListener (mkFile log_filename) message.

(** [update() { this.log.write(this.message); }] and
    [update() { this.system.email(this.emailAddress, this.message); }] *)
Definition update_object (o : ListenerObject) (data : Data) (w : World)
  : result World :=
  match o with
  | LoggingListener log message => Ok (do_io (IoWrite log (Some message)) w)
  | EmailAlertsListener emailAddress message =>
      Ok (do_io (IoEmail emailAddress message) w)
  end.

(** Calling [update] through a reference, given the objects that exist. *)
Definition update_of (objects : gmap nat ListenerObject)
  : Listener -> Data -> World -> result World :=
  fun l data w =>
    match objects !! l with
    | Some o => update_object o data w
    | None => Throw (TypeError "listener.update is not a function")
    end.

(** *** [class Application] and the script at the end of the file *)

Definition logger : Listener := 1%nat.
Definition emailAlerts : Listener := 2%nat.

Definition app_objects : gmap nat ListenerObject :=
  <[logger := new_LoggingListener "/path/to/log.txt"
                "Someone has opened the file: %s"]>
  (<[emailAlerts := EmailAlertsListener "admin@example.com"
                      "Someone has changed the file: %s"]> ∅).

(** [new Editor()] *)
Definition new_Editor : World := mkWorld ∅ None [].

(** [config()] *)
Definition config : result World :=
  w ← subscribe "open" logger new_Editor;
  subscribe "save" emailAlerts w.

(** [app.config(); app.editor.openFile(...); app.editor.saveFile();
     app.editor.events.unsubscribe("save", app.emailAlerts);
     app.editor.events.unsubscribe("open", app.logger)] *)
Definition main : list call * result World :=
  match config with
  | Throw e => ([], Throw e)
  | Ok w0 =>
      match openFile (update_of app_objects) "/path/to/file.txt" w0 with
      | (t1, Throw e) => (t1, Throw e)
      | (t1, Ok w1) =>
          match saveFile (update_of app_objects) w1 with
          | (t2, Throw e) => (t1 ++ t2, Throw e)
          | (t2, Ok w2) =>
              (t1 ++ t2,
               w3 ← unsubscribe "save" emailAlerts w2;
               unsubscribe "open" logger w3)
          end
      end
  end.

(** *** Notions used to state the properties *)

(** No [update] ever throws. *)
Definition never_throws
  (update : Listener -> Data -> World -> result World) : Prop :=
  forall l d w, is_Ok (update l d w) = true.

(** What it is for the calls [tr] to be (the calls made so far by) a pass of
    [notify] on [k] with payload [d] that was entered in state [w1]: they go
    to listeners of [k], in order, with payload [d]; the first listener is
    entered in [w1]; and each listener is entered in the state that the
    listeners called before it made of [w1]. *)
Definition pass_entered_in
  (update : Listener -> Data -> World -> result World)
  (k : string) (d : Data) (w1 : World) (tr : list call) : Prop :=
  callees tr `prefix_of` listeners_of k w1
  /\ Forall (fun c => payload c = d) tr
  /\ (forall c, head tr = Some c -> seen c = w1)
  /\ (forall i c, tr !! i = Some c ->
        dispatch update (take i (listeners_of k w1)) d w1
        = (take i tr, Ok (seen c))).

(** *** Fixtures *)

(** A listener [L1] whose [update] subscribes [L3] to [k]; every other
    listener returns at once. *)
Definition subscribing_update (k : string) (L1 L3 : Listener)
  : Listener -> Data -> World -> result World :=
  fun l _ w => if decide (l = L1) then subscribe k L3 w else Ok w.

(** A registry with the given sequence under one key. *)
Definition registry_with (k : string) (ls : list Listener) : World :=
  mkWorld {[k := ls]} None [].

(** Objects behind the references: 3 is an e-mail listener, every other
    reference a logging listener, all with the same fields. *)
Definition twin_object (l : Listener) : ListenerObject :=
  if decide (l = 3%nat)
  then EmailAlertsListener "admin@example.com" "changed"
  else new_LoggingListener "/path/to/log.txt" "opened".

Definition twin_update : Listener -> Data -> World -> result World :=
  fun l d w => update_object (twin_object l) d w.

(** *** Listeners of the two concrete classes *)

(** The external call that [update] of a concrete listener makes. *)
Definition event_of (o : ListenerObject) : io_event :=
  match o with
  | LoggingListener log message => IoWrite log (Some message)
  | EmailAlertsListener emailAddress message => IoEmail emailAddress message
  end.

(** Calling [update] through a reference when every reference designates an
    object of one of the two concrete classes. *)
Definition update_objects (objects : Listener -> ListenerObject)
  : Listener -> Data -> World -> result World :=
  fun l data w => update_object (objects l) data w.

(** The state after further external calls. *)
Definition add_io (es : list io_event) (w : World) : World :=
  mkWorld (listeners w) (file w) (io w ++ es).

(** A listener [L] whose [update] throws; every other listener returns at
    once. *)
Definition throwing_update (L : Listener)
  : Listener -> Data -> World -> result World :=
  fun l _ w => if decide (l = L) then Throw (Error "update failed") else Ok w.

(** A listener [L1] whose [update] unsubscribes [L2] from [k]; every other
    listener returns at once. *)
Definition unsubscribing_update (k : string) (L1 L2 : Listener)
  : Listener -> Data -> World -> result World :=
  fun l _ w => if decide (l = L1) then unsubscribe k L2 w else Ok w.

(** *** Invocations *)

(** The calls [tr] are invocations of [update] with payload [d], one after
    the other from the state [w]: each listener's [update] was applied to
    the state the call before it left (the first to [w]) and returned
    normally, and the last left [w']. *)
Inductive invoked (update : Listener -> Data -> World -> result World)
  (d : Data) : World -> list call -> World -> Prop :=
  | invoked_nil (w : World) : invoked update d w [] w
  | invoked_cons (l : Listener) (w w1 : World) (tr : list call) (w' : World) :
      update l d w = Ok w1 ->
      invoked update d w1 tr w' ->
      invoked update d w (mkCall l d w :: tr) w'.

End Observer.


(* ================================================================== *)
(** * Properties of the arithmetic *)
(* ================================================================== *)

Module NumberFacts.

(** ** Exact rounding of shifted mantissas *)

Lemma digits_shl (k : nat) (m : positive) :
  Zpos (digits2_pos (shl k m)) = Zpos (digits2_pos m) + Z.of_nat k.
Proof.
  induction k as [|k IH].
  - cbn. lia.
  - change (shl (S k) m) with (xO (shl k m)). cbn [digits2_pos].
    rewrite Pos2Z.inj_succ, IH, Nat2Z.inj_succ. lia.
Qed.

Lemma Pos_iter_shl (p : positive) (m : positive) :
  Pos.iter xO m p = shl (Pos.to_nat p) m.
Proof. unfold shl. apply Pos2Nat.inj_iter. Qed.

Lemma iter_pos_nat {A} (f : A -> A) (p : positive) (x : A) :
  SpecFloat.iter_pos f p x = Nat.iter (Pos.to_nat p) f x.
Proof.
  revert x. induction p as [p IH|p IH|]; intros x; cbn [SpecFloat.iter_pos].
  - rewrite !IH, Pos2Nat.inj_xI.
    replace (S (2 * Pos.to_nat p))%nat
      with (Pos.to_nat p + (Pos.to_nat p + 1))%nat by lia.
    rewrite !Nat.iter_add. reflexivity.
  - rewrite !IH, Pos2Nat.inj_xO.
    replace (2 * Pos.to_nat p)%nat
      with (Pos.to_nat p + Pos.to_nat p)%nat by lia.
    rewrite Nat.iter_add. reflexivity.
  - reflexivity.
Qed.

Lemma shr_shl (j r : nat) (m : positive) :
  Nat.iter j shr_1 (Build_shr_record (Zpos (shl (j + r) m)) false false)
  = Build_shr_record (Zpos (shl r m)) false false.
Proof.
  revert r. induction j as [|j IH]; intros r; [reflexivity|].
  cbn [Nat.iter nat_rect].
  replace (S j + r)%nat with (j + S r)%nat by lia.
  change (nat_rect _ ?x (fun _ => ?f) j) with (Nat.iter j f x).
  rewrite IH. reflexivity.
Qed.

Lemma shr_exact (j r : nat) (m : positive) (e : Z) :
  shr (Build_shr_record (Zpos (shl (j + r) m)) false false) e (Z.of_nat j)
  = (Build_shr_record (Zpos (shl r m)) false false, e + Z.of_nat j).
Proof.
  destruct j as [|j].
  - unfold shr. change (Z.of_nat 0) with 0. cbv beta iota.
    rewrite Z.add_0_r. reflexivity.
  - unfold shr.
    change (Z.of_nat (S j)) with (Zpos (Pos.of_succ_nat j)).
    cbv beta iota.
    rewrite iter_pos_nat, SuccNat2Pos.id_succ, shr_shl. reflexivity.
Qed.

Lemma fexp_normal (e : Z) : -1021 <= e -> fexp prec emax e = e - 53.
Proof. intros H. unfold fexp, emin, prec, emax. lia. Qed.

(** Rounding a mantissa of at most 53 digits that was shifted left, at the
    exponent that undoes the shift, is exact and normalises it. *)
Lemma binary_round_aux_exact (s : bool) (j r : nat) (m : positive) (e : Z) :
  Zpos (digits2_pos m) + Z.of_nat r = 53 ->
  -1074 <= e + Z.of_nat j <= 971 ->
  binary_round_aux prec emax s (Zpos (shl (j + r) m)) e loc_Exact
  = S754_finite s (shl r m) (e + Z.of_nat j).
Proof.
  intros Hd He. unfold binary_round_aux, shr_fexp.
  cbn [Zdigits2 shr_record_of_loc].
  rewrite digits_shl, fexp_normal by lia.
  replace (Zpos (digits2_pos m) + Z.of_nat (j + r) + e - 53 - e)
    with (Z.of_nat j) by lia.
  rewrite shr_exact. cbn [shr_m loc_of_shr_record round_nearest_even].
  cbn [Zdigits2 shr_record_of_loc].
  rewrite digits_shl, fexp_normal by lia.
  replace (Zpos (digits2_pos m) + Z.of_nat r + (e + Z.of_nat j) - 53
           - (e + Z.of_nat j)) with 0 by lia.
  cbn [shr shr_m].
  destruct (Z.leb_spec (e + Z.of_nat j) (emax - prec)) as [_|H];
    [reflexivity|unfold emax, prec in H; lia].
Qed.

Lemma binary_round_shl (s : bool) (k : nat) (m : positive) :
  Zpos (digits2_pos m) <= 53 ->
  (k <= 1000)%nat ->
  binary_round prec emax s (shl k m) (- Z.of_nat k)
  = S754_finite s (shl (normal_shift m) m) (Zpos (digits2_pos m) - 53).
Proof.
  intros Hd Hk. unfold binary_round, normal_shift.
  rewrite digits_shl, fexp_normal by lia.
  unfold shl_align.
  destruct (Zpos (digits2_pos m) + Z.of_nat k + - Z.of_nat k - 53
            - - Z.of_nat k) as [|p|p] eqn:E.
  - replace k with (0 + Z.to_nat (53 - Zpos (digits2_pos m)))%nat at 1 by lia.
    rewrite binary_round_aux_exact by lia. f_equal. lia.
  - replace k with (Pos.to_nat p + Z.to_nat (53 - Zpos (digits2_pos m)))%nat
      at 1 by lia.
    rewrite binary_round_aux_exact by lia. f_equal. lia.
  - rewrite Pos_iter_shl. unfold shl at 1 2. rewrite <- Nat.iter_add.
    fold (shl (Pos.to_nat p + k) m).
    replace (Pos.to_nat p + k)%nat
      with (0 + Z.to_nat (53 - Zpos (digits2_pos m)))%nat by lia.
    rewrite binary_round_aux_exact by lia. f_equal. lia.
Qed.

Lemma Zpos_shl (k : nat) (m : positive) :
  Zpos (shl k m) = Zpos m * 2 ^ Z.of_nat k.
Proof.
  induction k as [|k IH]; [cbn; lia|].
  change (shl (S k) m) with (xO (shl k m)).
  rewrite Pos2Z.inj_xO, IH, Nat2Z.inj_succ, Z.pow_succ_r by lia. lia.
Qed.

Lemma digits_lower (m : positive) :
  2 ^ (Zpos (digits2_pos m) - 1) <= Zpos m.
Proof.
  induction m as [m IH|m IH|]; cbn [digits2_pos]; [| |cbn; lia].
  all: rewrite Pos2Z.inj_succ.
  all: replace (Z.succ (Zpos (digits2_pos m)) - 1)
         with (Z.succ (Zpos (digits2_pos m) - 1)) by lia.
  all: rewrite Z.pow_succ_r by lia; lia.
Qed.

Lemma digits_safe (m : positive) :
  Zpos m < 2 ^ 53 -> Zpos (digits2_pos m) <= 53.
Proof.
  intros H. destruct (Z.le_gt_cases (Zpos (digits2_pos m)) 53) as [|Hgt];
    [done|exfalso].
  pose proof (digits_lower m) as Hl.
  assert (2 ^ 53 <= 2 ^ (Zpos (digits2_pos m) - 1))
    by (apply Z.pow_le_mono_r; lia).
  lia.
Qed.

Lemma binary_round_normal (s : bool) (m : positive) :
  Zpos m < 2 ^ 53 -> binary_round prec emax s m 0 = normal s m.
Proof.
  intros H. apply (binary_round_shl s 0 m); [by apply digits_safe | lia].
Qed.

Lemma binary_round_scaled (s : bool) (k : nat) (m : positive) :
  Zpos m < 2 ^ 53 -> (k <= 1000)%nat ->
  binary_round prec emax s (shl k m) (- Z.of_nat k) = normal s m.
Proof. intros H Hk. apply binary_round_shl; [by apply digits_safe | done]. Qed.

Lemma binary_normalize_scaled (z : Z) (k : nat) :
  safe_integer z -> (k <= 1000)%nat ->
  binary_normalize prec emax (z * 2 ^ Z.of_nat k) (- Z.of_nat k) false
  = binary_normalize prec emax z 0 false.
Proof.
  intros [Hl Hu] Hk. destruct z as [|m|m].
  - reflexivity.
  - rewrite <- Zpos_shl. cbn [binary_normalize].
    rewrite binary_round_scaled, binary_round_normal by lia. reflexivity.
  - replace (Zneg m * 2 ^ Z.of_nat k) with (Zneg (shl k m))
      by (rewrite <- !Pos2Z.opp_pos, Zpos_shl; lia).
    cbn [binary_normalize].
    rewrite binary_round_scaled, binary_round_normal by lia. reflexivity.
Qed.

Lemma Num_nonzero (s : bool) (m : positive) :
  Zpos m < 2 ^ 53 ->
  Num (cond_Zopp s (Zpos m)) = Double (normal s m).
Proof.
  intros H. unfold Num.
  destruct s; unfold cond_Zopp; [change (- Zpos m) with (Zneg m)|];
    cbn [binary_normalize]; by rewrite binary_round_normal.
Qed.

Lemma align_normal (m : positive) (ez : Z) :
  Zpos (digits2_pos m) <= 53 ->
  ez <= Zpos (digits2_pos m) - 53 ->
  (shl_align (shl (normal_shift m) m) (Zpos (digits2_pos m) - 53) ez).1
  = shl (Z.to_nat (- ez)) m.
Proof.
  intros Hd He. unfold shl_align, normal_shift.
  destruct (ez - (Zpos (digits2_pos m) - 53)) as [|p|p] eqn:E; cbn [fst].
  - f_equal. lia.
  - lia.
  - rewrite Pos_iter_shl. unfold shl. rewrite <- Nat.iter_add.
    f_equal. lia.
Qed.

Lemma cond_Zopp_mul (s : bool) (a b : Z) :
  cond_Zopp s (a * b) = cond_Zopp s a * b.
Proof. destruct s; cbn; lia. Qed.

Lemma SFadd_normal (sx sy : bool) (mx my : positive) :
  Zpos mx < 2 ^ 53 -> Zpos my < 2 ^ 53 ->
  SFadd prec emax (normal sx mx) (normal sy my)
  = binary_normalize prec emax
      ((cond_Zopp sx (Zpos mx) + cond_Zopp sy (Zpos my))
       * 2 ^ Z.of_nat (common_shift mx my))
      (- Z.of_nat (common_shift mx my)) false.
Proof.
  intros Hx Hy. apply digits_safe in Hx, Hy.
  unfold normal, SFadd. cbv zeta.
  rewrite !align_normal by lia.
  unfold common_shift.
  rewrite !Zpos_shl, !cond_Zopp_mul, <- Z.mul_add_distr_r.
  f_equal. lia.
Qed.

Lemma SFsub_normal (sx sy : bool) (mx my : positive) :
  Zpos mx < 2 ^ 53 -> Zpos my < 2 ^ 53 ->
  SFsub prec emax (normal sx mx) (normal sy my)
  = binary_normalize prec emax
      ((cond_Zopp sx (Zpos mx) - cond_Zopp sy (Zpos my))
       * 2 ^ Z.of_nat (common_shift mx my))
      (- Z.of_nat (common_shift mx my)) false.
Proof.
  intros Hx Hy. apply digits_safe in Hx, Hy.
  unfold normal, SFsub. cbv zeta.
  rewrite !align_normal by lia.
  unfold common_shift.
  rewrite !Zpos_shl, !cond_Zopp_mul, <- Z.mul_sub_distr_r.
  f_equal. lia.
Qed.

Lemma common_shift_le (mx my : positive) : (common_shift mx my <= 1000)%nat.
Proof. unfold common_shift. lia. Qed.

Lemma signed (z : Z) :
  z <> 0 -> exists s m, z = cond_Zopp s (Zpos m).
Proof.
  destruct z as [|m|m]; [done| |]; intros _.
  - by exists false, m.
  - by exists true, m.
Qed.

Lemma cond_Zopp_abs (s : bool) (m : positive) :
  safe_integer (cond_Zopp s (Zpos m)) -> Zpos m < 2 ^ 53.
Proof. unfold safe_integer. destruct s; cbn; lia. Qed.

(** On safe integers whose sum is safe, [+] is the addition of integers. *)
Lemma Num_plus (x y : Z) :
  safe_integer x -> safe_integer y -> safe_integer (x + y) ->
  plus (Num x) (Num y) = Num (x + y).
Proof.
  intros Hx Hy Hxy. unfold plus.
  destruct (decide (x = 0)) as [->|Hx0].
  { destruct (decide (y = 0)) as [->|Hy0]; [reflexivity|].
    destruct (signed y Hy0) as (s & m & ->).
    rewrite Z.add_0_l, Num_nonzero by (by eapply cond_Zopp_abs).
    reflexivity. }
  destruct (signed x Hx0) as (sx & mx & ->).
  pose proof (cond_Zopp_abs _ _ Hx) as Hmx.
  destruct (decide (y = 0)) as [->|Hy0].
  { rewrite Z.add_0_r, Num_nonzero by done. reflexivity. }
  destruct (signed y Hy0) as (sy & my & ->).
  pose proof (cond_Zopp_abs _ _ Hy) as Hmy.
  rewrite !Num_nonzero by done. cbn [ToNumber].
  rewrite SFadd_normal by done.
  by rewrite binary_normalize_scaled by (done || apply common_shift_le).
Qed.

(** On safe integers whose difference is safe, [-] is the subtraction of
    integers. *)
Lemma Num_minus (x y : Z) :
  safe_integer x -> safe_integer y -> safe_integer (x - y) ->
  minus (Num x) (Num y) = Num (x - y).
Proof.
  intros Hx Hy Hxy. unfold minus.
  destruct (decide (y = 0)) as [->|Hy0].
  { destruct (decide (x = 0)) as [->|Hx0]; [reflexivity|].
    destruct (signed x Hx0) as (s & m & ->).
    rewrite Z.sub_0_r, Num_nonzero by (by eapply cond_Zopp_abs).
    reflexivity. }
  destruct (signed y Hy0) as (sy & my & ->).
  pose proof (cond_Zopp_abs _ _ Hy) as Hmy.
  destruct (decide (x = 0)) as [->|Hx0].
  { replace (0 - cond_Zopp sy (Zpos my)) with (cond_Zopp (negb sy) (Zpos my))
      by (destruct sy; cbn; lia).
    rewrite !Num_nonzero by done. reflexivity. }
  destruct (signed x Hx0) as (sx & mx & ->).
  pose proof (cond_Zopp_abs _ _ Hx) as Hmx.
  rewrite !Num_nonzero by done. cbn [ToNumber].
  rewrite SFsub_normal by done.
  by rewrite binary_normalize_scaled by (done || apply common_shift_le).
Qed.

Lemma integer_of_Num (z : Z) :
  safe_integer z -> integer_of (ToNumber (Num z)) = z.
Proof.
  intros Hz. destruct (decide (z = 0)) as [->|Hz0]; [reflexivity|].
  destruct (signed z Hz0) as (s & m & ->).
  pose proof (cond_Zopp_abs _ _ Hz) as Hm.
  rewrite Num_nonzero by done. cbn [ToNumber normal integer_of].
  f_equal. rewrite Zpos_shl. unfold normal_shift.
  apply digits_safe in Hm.
  replace (- (Zpos (digits2_pos m) - 53))
    with (Z.of_nat (Z.to_nat (53 - Zpos (digits2_pos m)))) by lia.
  apply Z.div_mul. apply Z.pow_nonzero; lia.
Qed.

(** Different safe integers denote different doubles. *)
Lemma Num_inj (x y : Z) :
  safe_integer x -> safe_integer y -> Num x = Num y -> x = y.
Proof.
  intros Hx Hy E.
  rewrite <- (integer_of_Num x Hx), <- (integer_of_Num y Hy). by rewrite E.
Qed.

(** Above the safe integers [+] rounds: 2^53 + 1 is 2^53. *)
Example plus_rounds : plus (Num (2 ^ 53)) (Num 1) = Num (2 ^ 53).
Proof. vm_compute. reflexivity. Qed.

Example plus_small : plus (Num 5) (Num 6) = Num 11.
Proof. vm_compute. reflexivity. Qed.

Example plus_undefined : plus Undefined (Num 1) = NaN.
Proof. reflexivity. Qed.

End NumberFacts.

(* ================================================================== *)
(** * Properties of the command demo *)
(* ================================================================== *)

Module CommandFacts.
Import Command NumberFacts.

(** ** The heap of units *)

Lemma deref_live (u : uref) (h : heap) (o : Unit) :
  h !! u = Some o -> deref u h = Ok o.
Proof. intros H. unfold deref. by rewrite H. Qed.

Lemma get_value_live (u : uref) (h : heap) (o : Unit) :
  h !! u = Some o -> get_value u h = Ok (_value o).
Proof. intros H. unfold get_value. by rewrite (deref_live _ _ _ H). Qed.

Lemma moveTo_live (u : uref) (d : number) (h : heap) (o : Unit) :
  h !! u = Some o ->
  moveTo u d h = Ok (<[u := mkUnit (plus (_value o) d)]> h).
Proof. intros H. unfold moveTo. by rewrite (deref_live _ _ _ H). Qed.

Lemma deref_Ok_inv (u : uref) (h : heap) (o : Unit) :
  deref u h = Ok o -> h !! u = Some o.
Proof. unfold deref. destruct (h !! u); congruence. Qed.

Lemma get_value_Ok_inv (u : uref) (h : heap) (v : number) :
  get_value u h = Ok v -> exists o, h !! u = Some o /\ _value o = v.
Proof.
  unfold get_value. destruct (deref u h) as [o|e] eqn:E; cbn; [|discriminate].
  intros [= <-]. exists o. split; [by apply deref_Ok_inv | done].
Qed.

Lemma new_Unit_fresh (h : heap) : h !! (new_Unit h).1 = None.
Proof.
  cbn. apply not_elem_of_dom. apply is_fresh.
Qed.

Lemma new_Unit_lookup (h : heap) :
  (new_Unit h).2 !! (new_Unit h).1 = Some (mkUnit Undefined).
Proof. cbn. apply lookup_insert_eq. Qed.

(** ** [execute] and [undo] *)

Lemma execute_live (this : ModifyUnitCommand) (h : heap) (o : Unit) :
  h !! unit this = Some o ->
  execute this h =
    Ok (mkModifyUnitCommand (unit this) (value this) (_value o),
        <[unit this := mkUnit (plus (_value o) (value this))]> h).
Proof.
  intros H. unfold execute.
  rewrite (get_value_live _ _ _ H). cbn.
  by rewrite (moveTo_live _ _ _ _ H).
Qed.

Lemma undo_live (this : ModifyUnitCommand) (h : heap) (o : Unit) :
  h !! unit this = Some o ->
  undo this h =
    Ok (this, <[unit this := mkUnit (plus (_value o) (prevValue this))]> h).
Proof. intros H. unfold undo. by rewrite (moveTo_live _ _ _ _ H). Qed.

(** What [execute] followed by [undo] leaves in the unit: the value it held,
    plus the new value, plus the value it held. *)
Lemma execute_then_undo_live (this : ModifyUnitCommand) (h : heap) (o : Unit) :
  h !! unit this = Some o ->
  execute_then_undo this h =
    Ok (mkModifyUnitCommand (unit this) (value this) (_value o),
        <[unit this :=
            mkUnit (plus (plus (_value o) (value this)) (_value o))]> h).
Proof.
  intros H. unfold execute_then_undo.
  rewrite (execute_live _ _ _ H). cbn.
  erewrite undo_live by apply lookup_insert_eq. cbn.
  by rewrite insert_insert_eq.
Qed.

(** C1 (on the code): a unit holding the safe integer [v0], a command over
    it with the safe integer new value [v1] and any constructor argument
    [p], the sums [v0 + v1] and [v0 + v1 + v0] being safe too (so that no
    addition rounds); [execute] then [undo] returns normally and leaves
    [v0 + v1 + v0] in the unit, so the unit holds [v0] again only when
    [v1 = - v0]. *)
Theorem execute_then_undo_value (h : heap) (u : uref) (v0 v1 : Z) (p : number) :
  safe_integer v0 ->
  safe_integer v1 ->
  safe_integer (v0 + v1) ->
  safe_integer (v0 + v1 + v0) ->
  value_after u
    (execute_then_undo (mkModifyUnitCommand u (Num v1) p)
                       (<[u := mkUnit (Num v0)]> h))
  = Ok (Num (v0 + v1 + v0))
  /\ (Num (v0 + v1 + v0) = Num v0 <-> v1 = - v0).
Proof.
  intros H0 H1 H01 H010. split.
  - erewrite execute_then_undo_live by apply lookup_insert_eq.
    cbn [value_after mbind result_bind unit value _value].
    erewrite get_value_live by apply lookup_insert_eq. cbn [_value].
    by rewrite !Num_plus.
  - split.
    + intros E. apply Num_inj in E; [lia | done | done].
    + intros ->. f_equal. lia.
Qed.

Lemma safe_integer_small (z : Z) : -1000 <= z <= 1000 -> safe_integer z.
Proof.
  intros H. unfold safe_integer.
  assert (1000 < 2 ^ 53) by reflexivity. lia.
Qed.

Lemma execute_then_undo_value_witness :
  value_after 0%nat
    (execute_then_undo (mkModifyUnitCommand 0%nat (Num 6) (Num 5))
                       (<[0%nat := mkUnit (Num 5)]> ∅))
  = Ok (Num (5 + 6 + 5))
  /\ (Num (5 + 6 + 5) = Num 5 <-> 6 = - 5).
Proof.
  apply (execute_then_undo_value ∅ 0%nat 5 6 (Num 5));
    apply safe_integer_small; lia.
Defined.

(** The instance of the above that the scenario of the specification uses:
    from 5, with new value 6, [undo] leaves 16. *)
Example undo_from_5_with_6 :
  value_after 0%nat
    (execute_then_undo (mkModifyUnitCommand 0%nat (Num 6) (Num 5))
                       {[0%nat := mkUnit (Num 5)]})
  = Ok (Num 16).
Proof. vm_compute. reflexivity. Qed.

(** C2 (on the code): the scenario.  The unit holds 5 and the command is
    built with new value 6 and previous value 5; [execute] leaves 11 and the
    following [undo] leaves 16. *)
Theorem scenario_5_6 :
  let h0 : heap := {[0%nat := mkUnit (Num 5)]} in
  let c0 := mkModifyUnitCommand 0%nat (Num 6) (Num 5) in
  value_after 0%nat (execute c0 h0) = Ok (Num 11)
  /\ value_after 0%nat ('(c1, h1) ← execute c0 h0; undo c1 h1) = Ok (Num 16).
Proof. split; vm_compute; reflexivity. Qed.

(** C3: whenever [execute] returns normally, the previous value the command
    then stores is the value the unit held when [execute] was entered (the
    unit and the new value of the command are unchanged). *)
Theorem execute_records_previous
  (this this' : ModifyUnitCommand) (h h' : heap) :
  execute this h = Ok (this', h') ->
  get_value (unit this) h = Ok (prevValue this')
  /\ unit this' = unit this
  /\ value this' = value this.
Proof.
  unfold execute. intros H.
  destruct (get_value (unit this) h) as [v|e] eqn:Ev; cbn in H; [|discriminate].
  destruct (moveTo (unit this) (value this) h) as [h1|e] eqn:Em; cbn in H;
    [|discriminate].
  injection H as <- <-. done.
Qed.

Lemma execute_records_previous_witness :
  let c0 := mkModifyUnitCommand 0%nat (Num 6) (Num 9) in
  let c1 := mkModifyUnitCommand 0%nat (Num 6) (Num 5) in
  let h0 : heap := {[0%nat := mkUnit (Num 5)]} in
  let h1 : heap := {[0%nat := mkUnit (Num 11)]} in
  execute c0 h0 = Ok (c1, h1)
  /\ (get_value (unit c0) h0 = Ok (prevValue c1)
      /\ unit c1 = unit c0
      /\ value c1 = value c0).
Proof.
  split; [vm_compute; reflexivity|].
  apply (execute_records_previous
           (mkModifyUnitCommand 0%nat (Num 6) (Num 9))
           (mkModifyUnitCommand 0%nat (Num 6) (Num 5))
           {[0%nat := mkUnit (Num 5)]}
           {[0%nat := mkUnit (Num 11)]}).
  vm_compute. reflexivity.
Defined.

(** [execute] returns normally on every command whose unit exists. *)
Lemma execute_total (this : ModifyUnitCommand) (h : heap) :
  is_Some (h !! unit this) -> is_Ok (execute this h) = true.
Proof. intros [o H]. by rewrite (execute_live _ _ _ H). Qed.

(** C6 (as stated, on the code): [undo] on a command that was only
    constructed returns normally and changes the unit, here from 5 to 10;
    so it is not the case that it always ends in an exception. *)
Lemma undo_before_execute_returns :
  let h0 : heap := {[0%nat := mkUnit (Num 5)]} in
  let c0 := mkModifyUnitCommand 0%nat (Num 6) (Num 5) in
  undo c0 h0 = Ok (c0, {[0%nat := mkUnit (Num 10)]})
  /\ ~ (forall (c : ModifyUnitCommand) (h : heap), is_Ok (undo c h) = false).
Proof.
  split; [vm_compute; reflexivity|].
  intros H.
  specialize (H (mkModifyUnitCommand 0%nat (Num 6) (Num 5))
                {[0%nat := mkUnit (Num 5)]}).
  vm_compute in H. discriminate.
Qed.

(** C6 (amended): the class keeps no record of whether [execute] ran.  On a
    command as its constructor built it, over a unit that exists, [undo]
    returns normally, leaves the command as it was, and its whole effect is
    the call [moveTo] of the unit with the previous value given to the
    constructor; no other unit changes. *)
Theorem undo_before_execute
  (u : uref) (v p : number) (h : heap) (o : Unit) :
  h !! u = Some o ->
  exists h',
    undo (mkModifyUnitCommand u v p) h = Ok (mkModifyUnitCommand u v p, h')
    /\ moveTo u p h = Ok h'
    /\ (forall u', u' <> u -> h' !! u' = h !! u').
Proof.
  intros H. eexists. split; [|split].
  - by rewrite (undo_live (mkModifyUnitCommand u v p) h o H).
  - by rewrite (moveTo_live _ _ _ _ H).
  - intros u' Hne. cbn. by rewrite lookup_insert_ne.
Qed.

Lemma undo_before_execute_witness :
  exists h',
    undo (mkModifyUnitCommand 0%nat (Num 6) (Num 5))
         {[0%nat := mkUnit (Num 5)]}
      = Ok (mkModifyUnitCommand 0%nat (Num 6) (Num 5), h')
    /\ moveTo 0%nat (Num 5) {[0%nat := mkUnit (Num 5)]} = Ok h'
    /\ (forall u', u' <> 0%nat ->
          h' !! u' = ({[0%nat := mkUnit (Num 5)]} : heap) !! u').
Proof.
  apply (undo_before_execute 0%nat (Num 6) (Num 5)
           {[0%nat := mkUnit (Num 5)]} (mkUnit (Num 5))).
  reflexivity.
Defined.

(** ** Polling *)

(** C8: for every trigger predicate, [handleInput] samples the triggers in
    the order BUY, SELL up to the first that fired and returns the command
    kept for that one, or none.  [handleUnitInput] returns normally; its
    first event is the one call of [getSelectedUnit], every command it
    constructs is over the unit that call returned, and the command it
    returns is the one for the first trigger that fired, or none. *)
Theorem poll_priority_and_single_resolution
  (isTriggered : Action -> bool) (this : InputHandler) (h : heap) :
  handleInput isTriggered this
    = (map EvIsTriggered (sampled isTriggered priority),
       simple_for this <$> first_triggered isTriggered)
  /\ let u := (getSelectedUnit h).1 in
     let h1 := (getSelectedUnit h).2 in
     let cmd := modify_for u Undefined <$> first_triggered isTriggered in
     exists t,
       handleUnitInput isTriggered this h
         = (EvGetSelectedUnit u :: t,
            Ok (mkInputHandler (buyCommand this) (sellCommand this) (Some u),
                h1, cmd))
       /\ resolutions (EvGetSelectedUnit u :: t) = [u]
       /\ constructions t = option_list cmd
       /\ Forall (fun c => unit c = u) (constructions t)
       /\ t = map EvIsTriggered (sampled isTriggered priority)
                ++ map EvNewCommand (option_list cmd).
Proof.
  split.
  - unfold handleInput, first_triggered. cbn.
    destruct (isTriggered BUY_ACTION); [done|].
    destruct (isTriggered SELL_ACTION); done.
  - cbn zeta. unfold handleUnitInput, first_triggered.
    destruct (getSelectedUnit h) as [u h1] eqn:E. cbn [fst snd].
    assert (Hv : get_value u h1 = Ok Undefined).
    { pose proof (new_Unit_lookup h) as Hl. unfold getSelectedUnit in E.
      rewrite E in Hl. cbn [fst snd] in Hl.
      by rewrite (get_value_live _ _ _ Hl). }
    unfold selectedUnit_value, new_ModifyUnitCommand_selected.
    cbn [selectedUnit]. rewrite Hv. cbn [mbind result_bind].
    unfold priority. cbn [List.find sampled].
    destruct (isTriggered BUY_ACTION).
    + eexists. split; [reflexivity|]. cbn. repeat split; auto.
    + destruct (isTriggered SELL_ACTION).
      * eexists. split; [reflexivity|]. cbn. repeat split; auto.
      * eexists. split; [reflexivity|]. cbn. repeat split; auto.
Qed.

(** With the stub of the demo every poll takes the BUY branch. *)
Example handleInput_stub :
  handleInput isTriggered_stub new_InputHandler
  = ([EvIsTriggered BUY_ACTION], Some BuyCommand).
Proof. reflexivity. Qed.

Example demo_stub : demo isTriggered_stub [] = ["buy"].
Proof. reflexivity. Qed.

Example handleUnitInput_stub :
  handleUnitInput isTriggered_stub new_InputHandler ∅
  = ([EvGetSelectedUnit 0%nat; EvIsTriggered BUY_ACTION;
      EvNewCommand (mkModifyUnitCommand 0%nat NaN Undefined)],
     Ok (mkInputHandler BuyCommand SellCommand (Some 0%nat),
         {[0%nat := mkUnit Undefined]},
         Some (mkModifyUnitCommand 0%nat NaN Undefined))).
Proof. vm_compute. reflexivity. Qed.

End CommandFacts.

(* ================================================================== *)
(** * Properties of the observer *)
(* ================================================================== *)

Module ObserverFacts.
Import Observer.

(** ** The registry *)

Lemma listeners_of_set_file (k : string) (f : File) (w : World) :
  listeners_of k (set_file f w) = listeners_of k w.
Proof. reflexivity. Qed.

Lemma listeners_of_do_io (k : string) (e : io_event) (w : World) :
  listeners_of k (do_io e w) = listeners_of k w.
Proof. reflexivity. Qed.

Lemma listeners_of_insert_eq (k : string) (ls : list Listener) (w : World) :
  listeners_of k (set_listeners (<[k := ls]> (listeners w)) w) = ls.
Proof. unfold listeners_of. cbn. by rewrite lookup_insert_eq. Qed.

Lemma listeners_of_insert_ne (k k' : string) (ls : list Listener) (w : World) :
  k' <> k ->
  listeners_of k' (set_listeners (<[k := ls]> (listeners w)) w)
  = listeners_of k' w.
Proof. intros H. unfold listeners_of. cbn. by rewrite lookup_insert_ne. Qed.

(** [subscribe] returns normally, appends to the sequence of its key and
    changes nothing else. *)
Lemma subscribe_spec (k : string) (l : Listener) (w : World) :
  exists w',
    subscribe k l w = Ok w'
    /\ listeners_of k w' = listeners_of k w ++ [l]
    /\ (forall k', k' <> k -> listeners w' !! k' = listeners w !! k')
    /\ file w' = file w
    /\ io w' = io w.
Proof.
  eexists. split; [reflexivity|]. split; [apply listeners_of_insert_eq|].
  split; [|done]. intros k' H. cbn. by rewrite lookup_insert_ne.
Qed.

(** [unsubscribe] returns normally, filters the sequence of its key and
    changes nothing else. *)
Lemma unsubscribe_spec (k : string) (l : Listener) (w : World) :
  exists w',
    unsubscribe k l w = Ok w'
    /\ listeners_of k w' = filter (fun x => x <> l) (listeners_of k w)
    /\ (forall k', k' <> k -> listeners w' !! k' = listeners w !! k')
    /\ file w' = file w
    /\ io w' = io w.
Proof.
  eexists. split; [reflexivity|]. split; [apply listeners_of_insert_eq|].
  split; [|done]. intros k' H. cbn. by rewrite lookup_insert_ne.
Qed.

Lemma subscribe_all_spec (k : string) (ls : list Listener) (w : World) :
  exists w',
    subscribe_all k ls w = Ok w'
    /\ listeners_of k w' = listeners_of k w ++ ls
    /\ (forall k', k' <> k -> listeners w' !! k' = listeners w !! k')
    /\ file w' = file w
    /\ io w' = io w.
Proof.
  revert w. induction ls as [|l ls IH]; intros w.
  - exists w. cbn. by rewrite app_nil_r.
  - destruct (subscribe_spec k l w) as (w1 & E1 & Hk1 & Ho1 & Hf1 & Hi1).
    destruct (IH w1) as (w2 & E2 & Hk2 & Ho2 & Hf2 & Hi2).
    exists w2. cbn [subscribe_all]. rewrite E1. cbn. rewrite E2.
    split; [done|]. split.
    { rewrite Hk2, Hk1, <- app_assoc. done. }
    split.
    { intros k' H. rewrite Ho2, Ho1; done. }
    split; congruence.
Qed.

(** A filter by [<> l] keeps the list that does not hold [l]. *)
Lemma filter_ne_id (l : Listener) (ls : list Listener) :
  l ∉ ls -> filter (fun x => x <> l) ls = ls.
Proof.
  induction ls as [|a ls IH]; intros H; [done|].
  rewrite not_elem_of_cons in H. destruct H as [Ha Hl].
  rewrite filter_cons_True by congruence. by rewrite IH.
Qed.

Lemma count_occ_filter_ne (l l' : Listener) (ls : list Listener) :
  l' <> l ->
  count_occ Nat.eq_dec (filter (fun x => x <> l) ls) l'
  = count_occ Nat.eq_dec ls l'.
Proof.
  intros Hne. induction ls as [|a ls IH]; [done|].
  destruct (decide (a = l)) as [->|Ha].
  - rewrite filter_cons_False by (intros H; by apply H).
    rewrite count_occ_cons_neq by congruence. done.
  - rewrite filter_cons_True by done. cbn.
    destruct (Nat.eq_dec a l'); by rewrite IH.
Qed.

(** ** The dispatch loop *)

Section DispatchFacts.

Variable update : Listener -> Data -> World -> result World.

Lemma dispatch_cons_Ok l rest d w w' :
  update l d w = Ok w' ->
  dispatch update (l :: rest) d w
  = (mkCall l d w :: (dispatch update rest d w').1,
     (dispatch update rest d w').2).
Proof.
  intros H. cbn [dispatch]. rewrite H.
  by destruct (dispatch update rest d w').
Qed.

Lemma dispatch_cons_Throw l rest d w e :
  update l d w = Throw e ->
  dispatch update (l :: rest) d w = ([mkCall l d w], Throw e).
Proof. intros H. cbn [dispatch]. by rewrite H. Qed.

(** Whatever the listeners do to the registry, the calls of one pass go,
    in order, to an initial segment of the array the pass started
    with. *)
Lemma dispatch_callees_prefix ls d w :
  callees (dispatch update ls d w).1 `prefix_of` ls.
Proof.
  revert w. induction ls as [|l ls IH]; intros w.
  - apply prefix_nil.
  - destruct (update l d w) as [w'|e] eqn:E.
    + rewrite (dispatch_cons_Ok _ _ _ _ _ E). cbn.
      apply prefix_cons, IH.
    + rewrite (dispatch_cons_Throw _ _ _ _ _ E). cbn.
      apply prefix_cons, prefix_nil.
Qed.

(** A pass that returns normally has called the whole array. *)
Lemma dispatch_Ok_callees ls d w w' :
  (dispatch update ls d w).2 = Ok w' ->
  callees (dispatch update ls d w).1 = ls.
Proof.
  revert w. induction ls as [|l ls IH]; intros w; [done|].
  destruct (update l d w) as [w1|e] eqn:E.
  - rewrite (dispatch_cons_Ok _ _ _ _ _ E). cbn. intros H.
    f_equal. by apply IH.
  - rewrite (dispatch_cons_Throw _ _ _ _ _ E). cbn. discriminate.
Qed.

Lemma dispatch_payload ls d w :
  Forall (fun c => payload c = d) (dispatch update ls d w).1.
Proof.
  revert w. induction ls as [|l ls IH]; intros w; [constructor|].
  destruct (update l d w) as [w1|e] eqn:E.
  - rewrite (dispatch_cons_Ok _ _ _ _ _ E). cbn. by constructor.
  - rewrite (dispatch_cons_Throw _ _ _ _ _ E). cbn. by repeat constructor.
Qed.

(** The state a listener is entered in is the state the pass started in,
    as the listeners called before it left it. *)
Lemma dispatch_seen ls d w i c :
  (dispatch update ls d w).1 !! i = Some c ->
  dispatch update (take i ls) d w
  = (take i (dispatch update ls d w).1, Ok (seen c)).
Proof.
  revert w i. induction ls as [|l ls IH]; intros w i; [done|].
  destruct (update l d w) as [w1|e] eqn:E.
  - rewrite (dispatch_cons_Ok _ _ _ _ _ E). cbn [fst].
    destruct i as [|j]; cbn [lookup list_lookup take].
    + intros [= <-]. done.
    + intros H. rewrite (dispatch_cons_Ok _ _ _ _ _ E).
      by rewrite (IH w1 j H).
  - rewrite (dispatch_cons_Throw _ _ _ _ _ E). cbn [fst].
    destruct i as [|j]; cbn.
    + intros [= <-]. done.
    + discriminate.
Qed.

Lemma dispatch_head_seen ls d w c :
  head (dispatch update ls d w).1 = Some c -> seen c = w.
Proof.
  destruct ls as [|l ls]; [done|].
  destruct (update l d w) as [w1|e] eqn:E.
  - rewrite (dispatch_cons_Ok _ _ _ _ _ E). cbn. by intros [= <-].
  - rewrite (dispatch_cons_Throw _ _ _ _ _ E). cbn. by intros [= <-].
Qed.

(** A property of the state that every [update] keeps, and that the
    [update] of a listener of the array establishes, holds when the pass
    returns. *)
Lemma dispatch_establishes (P : World -> Prop) L1 ls d w w' :
  L1 ∈ ls ->
  (forall w0 w1, update L1 d w0 = Ok w1 -> P w1) ->
  (forall l w0 w1, update l d w0 = Ok w1 -> P w0 -> P w1) ->
  (dispatch update ls d w).2 = Ok w' ->
  P w'.
Proof.
  intros Hin Hest Hkeep.
  assert (Hinv : forall ls w w',
             P w -> (dispatch update ls d w).2 = Ok w' -> P w').
  { clear ls w w' Hin. induction ls as [|l ls IH]; intros w w' HP.
    - cbn. by intros [= <-].
    - destruct (update l d w) as [w1|e] eqn:E.
      + rewrite (dispatch_cons_Ok _ _ _ _ _ E). cbn. apply IH. eauto.
      + rewrite (dispatch_cons_Throw _ _ _ _ _ E). cbn. discriminate. }
  revert w. induction ls as [|l ls IH]; intros w.
  - by apply elem_of_nil in Hin.
  - destruct (update l d w) as [w1|e] eqn:E.
    + rewrite (dispatch_cons_Ok _ _ _ _ _ E). cbn.
      apply elem_of_cons in Hin as [->|Hin].
      * apply Hinv. eauto.
      * by apply IH.
    + rewrite (dispatch_cons_Throw _ _ _ _ _ E). cbn. discriminate.
Qed.

(** A pass that returns normally has invoked [update] of each listener of
    the array, in order, each on the state the one before it left. *)
Lemma dispatch_invoked ls d w tr w' :
  dispatch update ls d w = (tr, Ok w') -> invoked update d w tr w'.
Proof.
  revert w tr. induction ls as [|l ls IH]; intros w tr.
  - cbn. intros [= <- <-]. constructor.
  - destruct (update l d w) as [w1|e] eqn:E.
    + rewrite (dispatch_cons_Ok _ _ _ _ _ E).
      destruct (dispatch update ls d w1) as [t r] eqn:E1. cbn [fst snd].
      intros [= <- ->]. econstructor; [done|by apply IH].
    + rewrite (dispatch_cons_Throw _ _ _ _ _ E). discriminate.
Qed.

Lemma dispatch_total ls d w :
  never_throws update -> exists w', (dispatch update ls d w).2 = Ok w'.
Proof.
  intros Hok. revert w. induction ls as [|l ls IH]; intros w.
  - by exists w.
  - specialize (Hok l d w). destruct (update l d w) as [w1|e] eqn:E;
      [|discriminate].
    rewrite (dispatch_cons_Ok _ _ _ _ _ E). cbn. apply IH.
Qed.

(** With listeners that do not throw, [notify] returns normally and has
    called, in order, the listeners its key had when it was entered. *)
Lemma notify_complete k d w :
  never_throws update ->
  exists tr w',
    notify update k d w = (tr, Ok w')
    /\ callees tr = listeners_of k w
    /\ Forall (fun c => payload c = d) tr.
Proof.
  intros Hok. unfold notify.
  destruct (dispatch_total (listeners_of k w) d w Hok) as [w' Hw'].
  pose proof (dispatch_Ok_callees _ _ _ _ Hw') as Hc.
  pose proof (dispatch_payload (listeners_of k w) d w) as Hp.
  destruct (dispatch update (listeners_of k w) d w) as [tr r].
  cbn in *. subst r. by exists tr, w'.
Qed.

(** The same, with the invocations. *)
Lemma notify_invoked k d w :
  never_throws update ->
  exists tr w',
    notify update k d w = (tr, Ok w')
    /\ callees tr = listeners_of k w
    /\ Forall (fun c => payload c = d) tr
    /\ invoked update d w tr w'.
Proof.
  intros Hok.
  destruct (notify_complete k d w Hok) as (tr & w' & E & Hc & Hp).
  exists tr, w'. repeat split; try done. by apply (dispatch_invoked _ _ _ _ _ E).
Qed.

End DispatchFacts.

(** ** Facts about the fixtures *)

Lemma subscribing_update_never_throws k L1 L3 :
  never_throws (subscribing_update k L1 L3).
Proof. intros l d w. unfold subscribing_update. by case_decide. Qed.

Lemma listeners_of_registry_with k ls : listeners_of k (registry_with k ls) = ls.
Proof. unfold listeners_of, registry_with. cbn. by rewrite lookup_singleton_eq. Qed.

Lemma listeners_of_registry_with_ne k k' ls :
  k' <> k -> listeners_of k' (registry_with k ls) = [].
Proof.
  intros H. unfold listeners_of, registry_with. cbn.
  by rewrite lookup_singleton_ne.
Qed.

Lemma update_object_never_throws o d w : is_Ok (update_object o d w) = true.
Proof. by destruct o. Qed.

Lemma twin_update_never_throws : never_throws twin_update.
Proof. intros l d w. apply update_object_never_throws. Qed.

(** ** The claims *)

(** C4: a listener [L1] of the key [k] whose [update] calls
    [subscribe(k, L3)] (between whatever else, [before] and [after], it
    does), for an [L3] that [k] does not have; no listener throws, and none
    takes [L3] away again.  The pass of [notify] on [k] invokes, in order,
    exactly the listeners [k] had when the pass was entered: [L3] is not
    called in it, although [k] has [L3] when it ends.  The next [notify] on
    [k] invokes the listeners [k] then has, [L3] among them. *)
Theorem notify_dispatches_snapshot
  (update : Listener -> Data -> World -> result World)
  (before after : World -> result World)
  (k : string) (d d' : Data) (w : World) (L1 L3 : Listener) :
  never_throws update ->
  L1 ∈ listeners_of k w ->
  L3 ∉ listeners_of k w ->
  (forall w0,
     update L1 d w0
     = (w1 ← before w0; w2 ← subscribe k L3 w1; after w2)) ->
  (forall w2 w3, after w2 = Ok w3 ->
     L3 ∈ listeners_of k w2 -> L3 ∈ listeners_of k w3) ->
  (forall l w0 w1, l <> L1 -> update l d w0 = Ok w1 ->
     L3 ∈ listeners_of k w0 -> L3 ∈ listeners_of k w1) ->
  exists tr w' tr' w'',
    notify update k d w = (tr, Ok w')
    /\ callees tr = listeners_of k w
    /\ invoked update d w tr w'
    /\ (L3 ∉ callees tr)
    /\ L3 ∈ listeners_of k w'
    /\ notify update k d' w' = (tr', Ok w'')
    /\ callees tr' = listeners_of k w'
    /\ invoked update d' w' tr' w''
    /\ L3 ∈ callees tr'.
Proof.
  intros Hok H1 H3 Hsub Hafter Hkeep.
  destruct (notify_invoked update k d w Hok) as (tr & w' & E & Hc & _ & Hi).
  assert (Hest : forall w0 w1,
             update L1 d w0 = Ok w1 -> L3 ∈ listeners_of k w1).
  { intros w0 w1. rewrite Hsub.
    destruct (before w0) as [wa|e]; cbn [mbind result_bind]; [|discriminate].
    destruct (subscribe_spec k L3 wa) as (wb & -> & Hk & _).
    cbn [mbind result_bind]. intros Ha. apply (Hafter _ _ Ha).
    rewrite Hk. apply elem_of_app. right. apply elem_of_cons. by left. }
  assert (Hin : L3 ∈ listeners_of k w').
  { apply (dispatch_establishes update (fun x => L3 ∈ listeners_of k x)
             L1 (listeners_of k w) d w w' H1 Hest).
    - intros l w0 w1 Hu HP. destruct (decide (l = L1)) as [->|Hne].
      + by eapply Hest.
      + by eapply Hkeep.
    - unfold notify in E. by rewrite E. }
  destruct (notify_invoked update k d' w' Hok)
    as (tr' & w'' & E' & Hc' & _ & Hi').
  exists tr, w', tr', w''. rewrite Hc, Hc'. done.
Qed.

Lemma not_elem_of_1_2 : (3%nat : Listener) ∉ [1%nat; 2%nat].
Proof. intros H. by repeat (apply elem_of_cons in H as [H|H]; [done|]);
  apply elem_of_nil in H. Qed.

Lemma notify_dispatches_snapshot_witness :
  let update := subscribing_update "save" 1%nat 3%nat in
  let w := registry_with "save" [1%nat; 2%nat] in
  exists tr w' tr' w'',
    notify update "save" "a.txt" w = (tr, Ok w')
    /\ callees tr = listeners_of "save" w
    /\ invoked update "a.txt" w tr w'
    /\ (3%nat ∉ callees tr)
    /\ 3%nat ∈ listeners_of "save" w'
    /\ notify update "save" "b.txt" w' = (tr', Ok w'')
    /\ callees tr' = listeners_of "save" w'
    /\ invoked update "b.txt" w' tr' w''
    /\ 3%nat ∈ callees tr'.
Proof.
  apply (notify_dispatches_snapshot
           (subscribing_update "save" 1%nat 3%nat)
           (fun w => Ok w) (fun w => Ok w)
           "save" "a.txt" "b.txt"
           (registry_with "save" [1%nat; 2%nat]) 1%nat 3%nat).
  - apply subscribing_update_never_throws.
  - rewrite listeners_of_registry_with. apply elem_of_cons. by left.
  - rewrite listeners_of_registry_with. apply not_elem_of_1_2.
  - intros w0. reflexivity.
  - intros w2 w3 [= <-]. done.
  - intros l w0 w1 Hne. unfold subscribing_update.
    rewrite decide_False by done. by intros [= <-].
Defined.

(** The same scenario, run: the first pass calls 1 and 2 although 1 has
    subscribed 3 by the time 2 is called; the second pass calls 1, 2, 3. *)
Example subscribe_during_notify :
  let update := subscribing_update "save" 1%nat 3%nat in
  let w := registry_with "save" [1%nat; 2%nat] in
  exists tr w' tr' w'',
    notify update "save" "a.txt" w = (tr, Ok w')
    /\ callees tr = [1%nat; 2%nat]
    /\ map (fun c => listeners_of "save" (seen c)) tr
       = [[1%nat; 2%nat]; [1%nat; 2%nat; 3%nat]]
    /\ listeners_of "save" w' = [1%nat; 2%nat; 3%nat]
    /\ notify update "save" "b.txt" w' = (tr', Ok w'')
    /\ callees tr' = [1%nat; 2%nat; 3%nat].
Proof.
  cbn zeta. eexists _, _, _, _.
  split; [vm_compute; reflexivity|].
  split; [vm_compute; reflexivity|].
  split; [vm_compute; reflexivity|].
  split; [vm_compute; reflexivity|].
  split; vm_compute; reflexivity.
Qed.

(** C5: after any sequence [ls] of [subscribe] calls on [k], a [notify] on
    [k] (with listeners that do not throw) returns normally and invokes
    [update], in order, of the listeners [k] had before followed by [ls],
    each with the payload and each on the state the one before it left; so
    every listener is invoked as many times as it is subscribed. *)
Theorem notify_in_subscription_order
  (update : Listener -> Data -> World -> result World)
  (k : string) (ls : list Listener) (d : Data) (w : World) :
  never_throws update ->
  exists w1 tr w2,
    subscribe_all k ls w = Ok w1
    /\ notify update k d w1 = (tr, Ok w2)
    /\ callees tr = listeners_of k w ++ ls
    /\ Forall (fun c => payload c = d) tr
    /\ invoked update d w1 tr w2
    /\ (forall L,
          count_occ Nat.eq_dec (callees tr) L
          = (count_occ Nat.eq_dec (listeners_of k w) L
             + count_occ Nat.eq_dec ls L)%nat).
Proof.
  intros Hok.
  destruct (subscribe_all_spec k ls w) as (w1 & E1 & Hk & _).
  destruct (notify_invoked update k d w1 Hok)
    as (tr & w2 & E2 & Hc & Hp & Hi).
  exists w1, tr, w2. rewrite Hk in Hc.
  repeat split; try done.
  intros L. by rewrite Hc, count_occ_app.
Qed.

Lemma notify_in_subscription_order_witness :
  exists w1 tr w2,
    subscribe_all "save" [1%nat; 2%nat; 1%nat] new_Editor = Ok w1
    /\ notify twin_update "save" "x.txt" w1 = (tr, Ok w2)
    /\ callees tr = listeners_of "save" new_Editor ++ [1%nat; 2%nat; 1%nat]
    /\ Forall (fun c => payload c = "x.txt") tr
    /\ invoked twin_update "x.txt" w1 tr w2
    /\ (forall L,
          count_occ Nat.eq_dec (callees tr) L
          = (count_occ Nat.eq_dec (listeners_of "save" new_Editor) L
             + count_occ Nat.eq_dec [1%nat; 2%nat; 1%nat] L)%nat).
Proof.
  apply (notify_in_subscription_order twin_update "save"
           [1%nat; 2%nat; 1%nat] "x.txt" new_Editor).
  apply twin_update_never_throws.
Defined.

(** Subscribed twice, called twice; and in the order of subscription. *)
Example double_subscription :
  exists w1 tr w2,
    subscribe_all "save" [1%nat; 2%nat; 1%nat] new_Editor = Ok w1
    /\ notify twin_update "save" "x.txt" w1 = (tr, Ok w2)
    /\ callees tr = [1%nat; 2%nat; 1%nat]
    /\ length (io w2) = 3%nat.
Proof.
  eexists _, _, _.
  split; [vm_compute; reflexivity|].
  split; [vm_compute; reflexivity|].
  split; vm_compute; reflexivity.
Qed.

(** C7: [unsubscribe] of a listener that the key does not hold (as when the
    key has no subscribers at all) returns normally and leaves the listener
    sequence of every key, the entries of all other keys and the rest of
    the state as they were; [notify] on a key without subscribers returns
    normally, calls no listener and leaves the state as it was. *)
Theorem missing_subscription_is_noop
  (update : Listener -> Data -> World -> result World)
  (k kn : string) (l : Listener) (d : Data) (w : World) :
  l ∉ listeners_of k w ->
  listeners_of kn w = [] ->
  (exists w',
      unsubscribe k l w = Ok w'
      /\ (forall k', listeners_of k' w' = listeners_of k' w)
      /\ (forall k', k' <> k -> listeners w' !! k' = listeners w !! k')
      /\ file w' = file w
      /\ io w' = io w)
  /\ notify update kn d w = ([], Ok w).
Proof.
  intros Hl Hk. split.
  - destruct (unsubscribe_spec k l w) as (w' & E & Hf & Ho & Hfile & Hio).
    exists w'. repeat split; try done.
    intros k'. destruct (decide (k' = k)) as [->|Hne].
    + rewrite Hf. by apply filter_ne_id.
    + unfold listeners_of. by rewrite Ho.
  - unfold notify. by rewrite Hk.
Qed.

Lemma missing_subscription_is_noop_witness :
  let w := registry_with "open" [1%nat] in
  (exists w',
      unsubscribe "nope" 1%nat w = Ok w'
      /\ (forall k', listeners_of k' w' = listeners_of k' w)
      /\ (forall k', k' <> "nope" -> listeners w' !! k' = listeners w !! k')
      /\ file w' = file w
      /\ io w' = io w)
  /\ notify twin_update "nope" "x.txt" w = ([], Ok w).
Proof.
  apply (missing_subscription_is_noop twin_update "nope" "nope" 1%nat
           "x.txt" (registry_with "open" [1%nat])).
  - rewrite listeners_of_registry_with_ne by done. apply not_elem_of_nil.
  - by rewrite listeners_of_registry_with_ne.
Defined.

(** [unsubscribe] on an unknown key does add an entry for that key, with
    the empty array; [listeners_of] does not tell it from no entry. *)
Example unsubscribe_unknown_key :
  exists w',
    unsubscribe "nope" 1%nat (registry_with "open" [1%nat]) = Ok w'
    /\ listeners w' !! "nope" = Some []
    /\ listeners w' !! "open" = Some [1%nat].
Proof. eexists. repeat split; vm_compute; reflexivity. Qed.

(** C10: [unsubscribe] of [L] from [k] returns normally and leaves under [k]
    the listeners whose reference is not [L], in their order: no occurrence
    of [L] is left, and every other reference [L'], whatever object it
    designates, keeps all its occurrences.  A following [notify] on [k]
    (with listeners that do not throw) invokes [update] of exactly those,
    in order, each on the state the one before it left: never of [L], and
    of every [L'] that was subscribed. *)
Theorem unsubscribe_by_reference
  (update : Listener -> Data -> World -> result World)
  (k : string) (L : Listener) (d : Data) (w : World) :
  never_throws update ->
  exists w' tr w'',
    unsubscribe k L w = Ok w'
    /\ listeners_of k w' = filter (fun x => x <> L) (listeners_of k w)
    /\ (L ∉ listeners_of k w')
    /\ (forall L', L' <> L ->
          count_occ Nat.eq_dec (listeners_of k w') L'
          = count_occ Nat.eq_dec (listeners_of k w) L')
    /\ notify update k d w' = (tr, Ok w'')
    /\ callees tr = listeners_of k w'
    /\ invoked update d w' tr w''
    /\ (L ∉ callees tr)
    /\ (forall L', L' <> L -> L' ∈ listeners_of k w -> L' ∈ callees tr).
Proof.
  intros Hok.
  destruct (unsubscribe_spec k L w) as (w' & E & Hf & _).
  destruct (notify_invoked update k d w' Hok)
    as (tr & w'' & En & Hc & _ & Hi).
  assert (HL : L ∉ listeners_of k w').
  { rewrite Hf. intros H. apply list_elem_of_filter in H as [H _]. by apply H. }
  exists w', tr, w''. repeat split; try done.
  - intros L' Hne. rewrite Hf. by apply count_occ_filter_ne.
  - by rewrite Hc.
  - intros L' Hne Hin. rewrite Hc, Hf. by apply list_elem_of_filter.
Qed.

Lemma unsubscribe_by_reference_witness :
  let w := registry_with "open" [1%nat; 2%nat; 1%nat] in
  exists w' tr w'',
    unsubscribe "open" 1%nat w = Ok w'
    /\ listeners_of "open" w'
       = filter (fun x => x <> 1%nat) (listeners_of "open" w)
    /\ (1%nat ∉ listeners_of "open" w')
    /\ (forall L', L' <> 1%nat ->
          count_occ Nat.eq_dec (listeners_of "open" w') L'
          = count_occ Nat.eq_dec (listeners_of "open" w) L')
    /\ notify twin_update "open" "x.txt" w' = (tr, Ok w'')
    /\ callees tr = listeners_of "open" w'
    /\ invoked twin_update "x.txt" w' tr w''
    /\ (1%nat ∉ callees tr)
    /\ (forall L', L' <> 1%nat ->
          L' ∈ listeners_of "open" w -> L' ∈ callees tr).
Proof.
  apply (unsubscribe_by_reference twin_update "open" 1%nat "x.txt"
           (registry_with "open" [1%nat; 2%nat; 1%nat])).
  apply twin_update_never_throws.
Defined.

(** Listeners 1 and 2 designate objects with the same fields; removing 1
    (subscribed twice) leaves 2, which the next [notify] calls. *)
Example unsubscribe_twin :
  twin_object 1%nat = twin_object 2%nat
  /\ exists w' tr w'',
      unsubscribe "open" 1%nat (registry_with "open" [1%nat; 2%nat; 1%nat])
        = Ok w'
      /\ listeners_of "open" w' = [2%nat]
      /\ notify twin_update "open" "x.txt" w' = (tr, Ok w'')
      /\ callees tr = [2%nat].
Proof.
  split; [reflexivity|]. eexists _, _, _.
  split; [vm_compute; reflexivity|].
  split; [vm_compute; reflexivity|].
  split; vm_compute; reflexivity.
Qed.

(** ** The publisher *)

Lemma notify_pass_entered_in update k d w1 :
  pass_entered_in update k d w1 (notify update k d w1).1.
Proof.
  unfold notify. split; [apply dispatch_callees_prefix|].
  split; [apply dispatch_payload|].
  split; [apply dispatch_head_seen|].
  intros i c. apply dispatch_seen.
Qed.

(** C9: [openFile] first assigns the [file] field and then is a [notify]
    on "open" with the name of that file, entered in the state that holds
    the assignment.  [saveFile], on an editor with a file, first has the
    file written and then is a [notify] on "save" with the name of the
    file, entered in the state that holds the write; on an editor without a
    file it throws before any listener is called. *)
Theorem publisher_notifies_after_mutation
  (update : Listener -> Data -> World -> result World)
  (path : Path) (w : World) :
  (let w1 := set_file (mkFile path) w in
   file w1 = Some (mkFile path)
   /\ listeners w1 = listeners w
   /\ io w1 = io w
   /\ openFile update path w = notify update "open" path w1
   /\ pass_entered_in update "open" path w1 (openFile update path w).1)
  /\ match file w with
     | Some f =>
         let w1 := do_io (IoWrite f None) w in
         io w1 = io w ++ [IoWrite f None]
         /\ listeners w1 = listeners w
         /\ file w1 = file w
         /\ saveFile update w = notify update "save" (name f) w1
         /\ pass_entered_in update "save" (name f) w1 (saveFile update w).1
     | None =>
         saveFile update w = ([], Throw (TypeError "file is undefined"))
     end.
Proof.
  split.
  - cbn zeta. repeat split; try done.
    all: unfold openFile; cbn [file set_file name];
      apply notify_pass_entered_in.
  - destruct (file w) as [f|] eqn:E.
    + cbn zeta. unfold saveFile. rewrite E. cbn [file do_io]. rewrite E.
      repeat split; try done.
      all: apply notify_pass_entered_in.
    + unfold saveFile. by rewrite E.
Qed.

(** The script of the file: the logger is called once, for "open", and the
    e-mail listener once, for "save"; when the logger writes its line the
    editor holds the file, and when the e-mail is sent the file has been
    written. *)
Example main_run :
  exists c1 c2 w,
    main = ([c1; c2], Ok w)
    /\ (callee c1, payload c1) = (logger, "/path/to/file.txt")
    /\ file (seen c1) = Some (mkFile "/path/to/file.txt")
    /\ (callee c2, payload c2) = (emailAlerts, "/path/to/file.txt")
    /\ io (seen c2)
       = [IoWrite (mkFile "/path/to/log.txt")
            (Some "Someone has opened the file: %s");
          IoWrite (mkFile "/path/to/file.txt") None]
    /\ io w
       = io (seen c2)
         ++ [IoEmail "admin@example.com" "Someone has changed the file: %s"]
    /\ listeners_of "open" w = []
    /\ listeners_of "save" w = [].
Proof.
  eexists _, _, _.
  split; [vm_compute; reflexivity|].
  repeat split; vm_compute; reflexivity.
Qed.

(** [saveFile] before any [openFile] throws. *)
Example saveFile_without_file :
  saveFile twin_update (registry_with "save" [3%nat])
  = ([], Throw (TypeError "file is undefined")).
Proof. reflexivity. Qed.

End ObserverFacts.

(* ================================================================== *)
(** * Further properties of the command demo *)
(* ================================================================== *)

Module CommandMore.
Import Command NumberFacts CommandFacts.

(** ** [class Unit] *)

Lemma deref_dead (u : uref) (h : heap) :
  h !! u = None -> deref u h = Throw (TypeError "unit is undefined").
Proof. intros H. unfold deref. by rewrite H. Qed.

(** X1: the setter and the getter: on a unit that exists, [set value] returns
    normally and [get value] then returns the value set; no other unit
    changes and no unit is created. *)
Theorem set_value_get_value (u : uref) (v : number) (h : heap) :
  is_Some (h !! u) ->
  exists h',
    set_value u v h = Ok h'
    /\ get_value u h' = Ok v
    /\ (forall u', u' <> u -> h' !! u' = h !! u')
    /\ dom h' = dom h.
Proof.
  intros [o H]. exists (<[u := mkUnit v]> h).
  split; [unfold set_value; by rewrite (deref_live _ _ _ H)|].
  split; [by erewrite get_value_live by apply lookup_insert_eq|].
  split; [intros u' Hne; by rewrite lookup_insert_ne|].
  apply dom_insert_lookup_L. by exists o.
Qed.

Lemma set_value_get_value_witness :
  exists h',
    set_value 0%nat (Num 7) {[0%nat := mkUnit Undefined]} = Ok h'
    /\ get_value 0%nat h' = Ok (Num 7)
    /\ (forall u', u' <> 0%nat ->
          h' !! u' = ({[0%nat := mkUnit Undefined]} : heap) !! u')
    /\ dom h' = dom ({[0%nat := mkUnit Undefined]} : heap).
Proof.
  apply (set_value_get_value 0%nat (Num 7) {[0%nat := mkUnit Undefined]}).
  exists (mkUnit Undefined). reflexivity.
Defined.

(** X2: [moveTo] accumulates on safe integers: on a unit that holds the safe
    integer [v], [moveTo(a)] followed by [moveTo(b)] has the effect of the
    one call [moveTo(a + b)] and leaves [v + a + b], provided [a], [b] and
    the sums [v + a], [a + b] and [v + a + b] are safe integers. *)
Theorem moveTo_moveTo (u : uref) (v a b : Z) (h : heap) :
  h !! u = Some (mkUnit (Num v)) ->
  safe_integer v -> safe_integer a -> safe_integer b ->
  safe_integer (v + a) -> safe_integer (a + b) ->
  safe_integer (v + a + b) ->
  (h' ← moveTo u (Num a) h; moveTo u (Num b) h')
    = moveTo u (plus (Num a) (Num b)) h
  /\ moveTo u (plus (Num a) (Num b)) h
     = Ok (<[u := mkUnit (Num (v + a + b))]> h).
Proof.
  intros Hu Hv Ha Hb Hva Hab Hvab.
  rewrite !(moveTo_live _ _ _ _ Hu). cbn [mbind result_bind _value].
  erewrite moveTo_live by apply lookup_insert_eq. cbn [_value].
  rewrite insert_insert_eq, !Num_plus by done.
  rewrite Num_plus by (done || by rewrite Z.add_assoc).
  by rewrite Z.add_assoc.
Qed.

Lemma moveTo_moveTo_witness :
  let h : heap := {[0%nat := mkUnit (Num 5)]} in
  (h' ← moveTo 0%nat (Num 6) h; moveTo 0%nat (Num 7) h')
    = moveTo 0%nat (plus (Num 6) (Num 7)) h
  /\ moveTo 0%nat (plus (Num 6) (Num 7)) h
     = Ok (<[0%nat := mkUnit (Num (5 + 6 + 7))]> h).
Proof.
  apply (moveTo_moveTo 0%nat 5 6 7 {[0%nat := mkUnit (Num 5)]});
    [reflexivity | apply safe_integer_small; lia ..].
Defined.

(** Where the sums are not safe the two differ: from 2^53, [moveTo(1)]
    twice leaves 2^53, and [moveTo(1 + 1)] leaves 2^53 + 2. *)
Example moveTo_moveTo_rounds :
  let h : heap := {[0%nat := mkUnit (Num (2 ^ 53))]} in
  (h' ← moveTo 0%nat (Num 1) h; moveTo 0%nat (Num 1) h')
    = Ok {[0%nat := mkUnit (Num (2 ^ 53))]}
  /\ moveTo 0%nat (plus (Num 1) (Num 1)) h
     = Ok {[0%nat := mkUnit (Num (2 ^ 53 + 2))]}.
Proof. split; vm_compute; reflexivity. Qed.

(** ** [class ModifyUnitCommand] *)

(** X3: [execute], [undo] and their sequence return normally exactly when the
    unit of the command exists; otherwise they throw before anything is
    changed. *)
Theorem execute_undo_defined (this : ModifyUnitCommand) (h : heap) :
  (is_Ok (execute this h) = true <-> is_Some (h !! unit this))
  /\ (is_Ok (undo this h) = true <-> is_Some (h !! unit this))
  /\ (is_Ok (execute_then_undo this h) = true <-> is_Some (h !! unit this)).
Proof.
  destruct (h !! unit this) as [o|] eqn:E.
  - rewrite (execute_live _ _ _ E), (undo_live _ _ _ E),
      (execute_then_undo_live _ _ _ E). cbn. by repeat split.
  - unfold execute_then_undo, execute, undo, get_value, moveTo.
    rewrite (deref_dead _ _ E). cbn.
    repeat split; try discriminate; by intros [? ?].
Qed.

(** X4: [execute] and [undo] change the one unit of the command: no other unit
    changes, and no unit is created or removed. *)
Theorem execute_undo_frame
  (this this' : ModifyUnitCommand) (h h' : heap) :
  execute this h = Ok (this', h') \/ undo this h = Ok (this', h') ->
  dom h' = dom h
  /\ (forall u', u' <> unit this -> h' !! u' = h !! u')
  /\ unit this' = unit this.
Proof.
  intros H.
  destruct (h !! unit this) as [o|] eqn:E.
  - rewrite (execute_live _ _ _ E), (undo_live _ _ _ E) in H.
    destruct H as [H|H]; injection H as <- <-; cbn.
    all: split; [apply dom_insert_lookup_L; by exists o|].
    all: split; [intros u' Hne; by rewrite lookup_insert_ne | done].
  - exfalso. unfold execute, undo, get_value, moveTo in H.
    rewrite (deref_dead _ _ E) in H. cbn in H. by destruct H.
Qed.

Lemma execute_undo_frame_witness :
  let c := mkModifyUnitCommand 0%nat (Num 6) (Num 5) in
  let h : heap := <[1%nat := mkUnit (Num 3)]> {[0%nat := mkUnit (Num 5)]} in
  let h' : heap := <[1%nat := mkUnit (Num 3)]> {[0%nat := mkUnit (Num 10)]} in
  dom h' = dom h
  /\ (forall u', u' <> unit c -> h' !! u' = h !! u')
  /\ unit c = unit c.
Proof.
  apply (execute_undo_frame
           (mkModifyUnitCommand 0%nat (Num 6) (Num 5))
           (mkModifyUnitCommand 0%nat (Num 6) (Num 5))
           (<[1%nat := mkUnit (Num 3)]> {[0%nat := mkUnit (Num 5)]})
           (<[1%nat := mkUnit (Num 3)]> {[0%nat := mkUnit (Num 10)]})).
  right. vm_compute. reflexivity.
Defined.

(** ** Repeated calls *)

Lemma execute_num (u : uref) (v1 x : Z) (p : number) (h : heap) :
  safe_integer x -> safe_integer v1 -> safe_integer (x + v1) ->
  execute (mkModifyUnitCommand u (Num v1) p) (<[u := mkUnit (Num x)]> h)
  = Ok (mkModifyUnitCommand u (Num v1) (Num x),
        <[u := mkUnit (Num (x + v1))]> h).
Proof.
  intros Hx Hv Hs.
  erewrite execute_live by apply lookup_insert_eq. cbn.
  by rewrite insert_insert_eq, Num_plus.
Qed.

Lemma undo_num (u : uref) (v : number) (p x : Z) (h : heap) :
  safe_integer x -> safe_integer p -> safe_integer (x + p) ->
  undo (mkModifyUnitCommand u v (Num p)) (<[u := mkUnit (Num x)]> h)
  = Ok (mkModifyUnitCommand u v (Num p), <[u := mkUnit (Num (x + p))]> h).
Proof.
  intros Hx Hp Hs.
  erewrite undo_live by apply lookup_insert_eq. cbn.
  by rewrite insert_insert_eq, Num_plus.
Qed.

(** Between two safe integers of an arithmetic progression, the members of
    the progression are safe. *)
Lemma safe_integer_between (x d : Z) (n : nat) :
  safe_integer x -> safe_integer (x + Z.of_nat (S n) * d) ->
  safe_integer (x + d).
Proof. unfold safe_integer. intros Hx Hn. nia. Qed.

Lemma undo_n_num (n : nat) (u : uref) (v : number) (p x : Z) (h : heap) :
  safe_integer p -> safe_integer x -> safe_integer (x + Z.of_nat n * p) ->
  undo_n n (mkModifyUnitCommand u v (Num p)) (<[u := mkUnit (Num x)]> h)
  = Ok (mkModifyUnitCommand u v (Num p),
        <[u := mkUnit (Num (x + Z.of_nat n * p))]> h).
Proof.
  intros Hp. revert x. induction n as [|n IH]; intros x Hx Hn.
  - cbn [undo_n]. replace (x + Z.of_nat 0 * p) with x by lia. done.
  - assert (Hxp : safe_integer (x + p)) by (by eapply safe_integer_between).
    cbn [undo_n]. rewrite undo_num by done. cbn [mbind result_bind].
    replace (x + Z.of_nat (S n) * p) with (x + p + Z.of_nat n * p) in * by lia.
    by rewrite IH.
Qed.

(** X5: a command used again: after [n + 1] calls of [execute] on a unit
    that held the safe integer [v0], with the safe integer new value [v1],
    the unit holds [v0 + (n + 1) * v1], when that is a safe integer, and the
    command stores [v0 + n * v1], the value before the last call, whatever
    previous value the constructor was given. *)
Theorem execute_n_value
  (n : nat) (u : uref) (v0 v1 : Z) (p : number) (h : heap) :
  safe_integer v0 ->
  safe_integer v1 ->
  safe_integer (v0 + Z.of_nat (S n) * v1) ->
  execute_n (S n) (mkModifyUnitCommand u (Num v1) p)
            (<[u := mkUnit (Num v0)]> h)
  = Ok (mkModifyUnitCommand u (Num v1) (Num (v0 + Z.of_nat n * v1)),
        <[u := mkUnit (Num (v0 + Z.of_nat (S n) * v1))]> h).
Proof.
  intros H0 H1. revert v0 p H0. induction n as [|n IH]; intros v0 p H0 Hn.
  - cbn [execute_n].
    replace (v0 + Z.of_nat 1 * v1) with (v0 + v1) in * by lia.
    rewrite execute_num by done. cbn [mbind result_bind].
    replace (v0 + Z.of_nat 0 * v1) with v0 by lia. done.
  - assert (H01 : safe_integer (v0 + v1))
      by (by eapply safe_integer_between).
    change (execute_n (S (S n)) ?c ?h0)
      with ('(c', h') ← execute c h0; execute_n (S n) c' h').
    rewrite execute_num by done. cbn [mbind result_bind].
    replace (v0 + Z.of_nat (S (S n)) * v1)
      with (v0 + v1 + Z.of_nat (S n) * v1) in * by lia.
    rewrite IH by done.
    replace (v0 + v1 + Z.of_nat n * v1)
      with (v0 + Z.of_nat (S n) * v1) by lia.
    done.
Qed.

Lemma execute_n_value_witness :
  execute_n 3 (mkModifyUnitCommand 0%nat (Num 6) (Num 9))
            (<[0%nat := mkUnit (Num 5)]> ∅)
  = Ok (mkModifyUnitCommand 0%nat (Num 6) (Num (5 + Z.of_nat 2 * 6)),
        <[0%nat := mkUnit (Num (5 + Z.of_nat 3 * 6))]> ∅).
Proof.
  apply (execute_n_value 2 0%nat 5 6 (Num 9) ∅);
    apply safe_integer_small; cbn; lia.
Defined.

(** X6: [undo] is not idempotent: after [execute] on a unit that held the
    safe integer [v0], with the safe integer new value [v1], [n] calls of
    [undo] leave [v0 + v1 + n * v0] in the unit, when [v0 + v1] and that sum
    are safe integers. *)
Theorem undo_n_after_execute
  (n : nat) (u : uref) (v0 v1 : Z) (p : number) (h : heap) :
  safe_integer v0 ->
  safe_integer v1 ->
  safe_integer (v0 + v1) ->
  safe_integer (v0 + v1 + Z.of_nat n * v0) ->
  value_after u
    ('(c, h') ← execute (mkModifyUnitCommand u (Num v1) p)
                        (<[u := mkUnit (Num v0)]> h);
     undo_n n c h')
  = Ok (Num (v0 + v1 + Z.of_nat n * v0)).
Proof.
  intros H0 H1 H01 Hn.
  rewrite execute_num by done. cbn [mbind result_bind].
  rewrite undo_n_num by done. cbn [value_after mbind result_bind].
  by erewrite get_value_live by apply lookup_insert_eq.
Qed.

Lemma undo_n_after_execute_witness :
  value_after 0%nat
    ('(c, h') ← execute (mkModifyUnitCommand 0%nat (Num 6) (Num 9))
                        (<[0%nat := mkUnit (Num 5)]> ∅);
     undo_n 2 c h')
  = Ok (Num (5 + 6 + Z.of_nat 2 * 5)).
Proof.
  apply (undo_n_after_execute 2 0%nat 5 6 (Num 9) ∅);
    apply safe_integer_small; cbn; lia.
Defined.

(** ** The stateless commands and [demo] *)

Lemma execute_simple_line (c : SimpleCommand) (out : console) :
  execute_simple c out = out ++ [line_of c].
Proof. by destruct c. Qed.

(** X7: stateless commands do not deduplicate: executing a list of them on a
    console appends one line per command, in order, whatever the console
    held and however often a command occurs. *)
Theorem execute_all_lines (cs : list SimpleCommand) (out : console) :
  execute_all cs out = out ++ map line_of cs.
Proof.
  unfold execute_all. revert out. induction cs as [|c cs IH]; intros out.
  - cbn. by rewrite app_nil_r.
  - cbn [foldl map]. rewrite IH, execute_simple_line, <- app_assoc. done.
Qed.

(** X8: [demo] prints the line of the command for the first trigger that fired,
    in the order BUY, SELL, and nothing when none fired; what the console
    held stays. *)
Theorem demo_prints (isTriggered : Action -> bool) (out : console) :
  demo isTriggered out
  = out ++ match first_triggered isTriggered with
           | Some BUY_ACTION => ["buy"]
           | Some SELL_ACTION => ["sell"]
           | None => []
           end.
Proof.
  unfold demo, handleInput, first_triggered, priority. cbn [List.find].
  destruct (isTriggered BUY_ACTION); [done|].
  destruct (isTriggered SELL_ACTION); [done|].
  cbn. by rewrite app_nil_r.
Qed.

(** ** Polling for the selected unit *)

(** X9: [getSelectedUnit] returns a unit that did not exist, holding
    [undefined]; the units that existed are unchanged, and a second call
    returns another unit. *)
Theorem getSelectedUnit_fresh (h : heap) :
  let u := (getSelectedUnit h).1 in
  let h1 := (getSelectedUnit h).2 in
  h !! u = None
  /\ h1 !! u = Some (mkUnit Undefined)
  /\ dom h1 = {[u]} ∪ dom h
  /\ (forall u', u' <> u -> h1 !! u' = h !! u')
  /\ (getSelectedUnit h1).1 <> u.
Proof.
  cbn zeta. unfold getSelectedUnit.
  split; [apply new_Unit_fresh|].
  split; [apply new_Unit_lookup|].
  split; [cbn; apply dom_insert_L|].
  split; [intros u' Hne; cbn; by rewrite lookup_insert_ne|].
  intros Heq. pose proof (new_Unit_fresh (new_Unit h).2) as Hf.
  rewrite Heq, new_Unit_lookup in Hf. discriminate.
Qed.

(** The outcome of [handleUnitInput], for every trigger predicate. *)
Lemma handleUnitInput_outcome
  (isTriggered : Action -> bool) (this : InputHandler) (h : heap) :
  (handleUnitInput isTriggered this h).2
  = Ok (mkInputHandler (buyCommand this) (sellCommand this)
          (Some (new_Unit h).1),
        (new_Unit h).2,
        modify_for (new_Unit h).1 Undefined <$> first_triggered isTriggered).
Proof.
  unfold handleUnitInput, getSelectedUnit.
  pose proof (new_Unit_lookup h) as Hl.
  destruct (new_Unit h) as [u h1]. cbn [fst snd] in *.
  unfold selectedUnit_value, new_ModifyUnitCommand_selected.
  cbn [selectedUnit]. rewrite (get_value_live _ _ _ Hl).
  cbn [mbind result_bind _value].
  unfold first_triggered, priority. cbn [List.find].
  destruct (isTriggered BUY_ACTION); [done|].
  by destruct (isTriggered SELL_ACTION).
Qed.

(** X10: a command that [handleUnitInput] returns is over a unit that did not
    exist before the poll and holds [undefined].  Executing it, and undoing
    it, returns normally and leaves [NaN] in that unit; the units that
    existed before the poll are as they were. *)
Theorem polled_command_on_fresh_unit
  (isTriggered : Action -> bool) (this this1 : InputHandler)
  (h h1 : heap) (t : list event) (c : ModifyUnitCommand) :
  handleUnitInput isTriggered this h = (t, Ok (this1, h1, Some c)) ->
  h !! unit c = None
  /\ get_value (unit c) h1 = Ok Undefined
  /\ exists c' h2 h3,
      execute c h1 = Ok (c', h2)
      /\ get_value (unit c) h2 = Ok NaN
      /\ undo c' h2 = Ok (c', h3)
      /\ get_value (unit c) h3 = Ok NaN
      /\ (forall u', is_Some (h !! u') ->
            h2 !! u' = h !! u' /\ h3 !! u' = h !! u').
Proof.
  intros H. pose proof (handleUnitInput_outcome isTriggered this h) as Ho.
  rewrite H in Ho. cbn [snd] in Ho. injection Ho as -> -> Hc.
  pose proof (new_Unit_fresh h) as Hf. cbn in Hf, Hc.
  set (u := fresh (dom h)) in *.
  assert (Hl : (<[u := mkUnit Undefined]> h) !! u = Some (mkUnit Undefined))
    by apply lookup_insert_eq.
  assert (Hu : unit c = u).
  { destruct (isTriggered BUY_ACTION); [|destruct (isTriggered SELL_ACTION)];
      by simplify_eq/=. }
  assert (Hne : forall u', is_Some (h !! u') -> u <> u').
  { intros u' [o Ho] <-. congruence. }
  rewrite Hu. split; [done|].
  split; [by rewrite (get_value_live _ _ _ Hl)|].
  eexists _, _, _.
  split.
  { rewrite (execute_live c _ (mkUnit Undefined)); [done|by rewrite Hu]. }
  rewrite Hu. cbn [_value plus].
  split; [by erewrite get_value_live by apply lookup_insert_eq|].
  split.
  { erewrite undo_live; [done|]. cbn [unit]. apply lookup_insert_eq. }
  cbn [unit _value plus prevValue].
  split; [by erewrite get_value_live by apply lookup_insert_eq|].
  intros u' Hin. by rewrite !lookup_insert_ne by (by apply Hne).
Qed.

Lemma polled_command_on_fresh_unit_witness :
  let h : heap := {[0%nat := mkUnit (Num 5)]} in
  let h1 : heap := <[1%nat := mkUnit Undefined]> h in
  let c := mkModifyUnitCommand 1%nat NaN Undefined in
  h !! unit c = None
  /\ get_value (unit c) h1 = Ok Undefined
  /\ exists c' h2 h3,
      execute c h1 = Ok (c', h2)
      /\ get_value (unit c) h2 = Ok NaN
      /\ undo c' h2 = Ok (c', h3)
      /\ get_value (unit c) h3 = Ok NaN
      /\ (forall u', is_Some (h !! u') ->
            h2 !! u' = h !! u' /\ h3 !! u' = h !! u').
Proof.
  apply (polled_command_on_fresh_unit isTriggered_stub new_InputHandler
           (mkInputHandler BuyCommand SellCommand (Some 1%nat))
           {[0%nat := mkUnit (Num 5)]}
           (<[1%nat := mkUnit Undefined]> {[0%nat := mkUnit (Num 5)]})
           [EvGetSelectedUnit 1%nat; EvIsTriggered BUY_ACTION;
            EvNewCommand (mkModifyUnitCommand 1%nat NaN Undefined)]
           (mkModifyUnitCommand 1%nat NaN Undefined)).
  vm_compute. reflexivity.
Defined.

(** X11: two polls in a row select different units, so the commands they return
    never act on the same unit. *)
Theorem polls_select_different_units
  (isTriggered isTriggered' : Action -> bool)
  (this this1 this2 : InputHandler) (h h1 h2 : heap)
  (t t' : list event) (c1 c2 : ModifyUnitCommand) :
  handleUnitInput isTriggered this h = (t, Ok (this1, h1, Some c1)) ->
  handleUnitInput isTriggered' this1 h1 = (t', Ok (this2, h2, Some c2)) ->
  unit c1 <> unit c2
  /\ selectedUnit this1 = Some (unit c1)
  /\ selectedUnit this2 = Some (unit c2).
Proof.
  intros H1 H2.
  pose proof (handleUnitInput_outcome isTriggered this h) as Ho1.
  pose proof (handleUnitInput_outcome isTriggered' this1 h1) as Ho2.
  rewrite H1 in Ho1. rewrite H2 in Ho2. cbn [snd] in Ho1, Ho2.
  injection Ho1 as E1 Eh1 Ec1. injection Ho2 as E2 Eh2 Ec2.
  assert (Hu1 : unit c1 = (new_Unit h).1).
  { destruct (first_triggered isTriggered) as [[]|]; by simplify_eq/=. }
  assert (Hu2 : unit c2 = (new_Unit h1).1).
  { destruct (first_triggered isTriggered') as [[]|]; by simplify_eq/=. }
  rewrite Hu1, Hu2. split.
  - intros Heq. pose proof (new_Unit_fresh h1) as Hf.
    rewrite <- Heq, Eh1 in Hf. rewrite new_Unit_lookup in Hf. discriminate.
  - by rewrite E1, E2.
Qed.

Lemma polls_select_different_units_witness :
  (1%nat : uref) <> 2%nat
  /\ Some 1%nat = Some 1%nat
  /\ Some 2%nat = Some 2%nat.
Proof.
  apply (polls_select_different_units isTriggered_stub isTriggered_stub
           new_InputHandler
           (mkInputHandler BuyCommand SellCommand (Some 1%nat))
           (mkInputHandler BuyCommand SellCommand (Some 2%nat))
           {[0%nat := mkUnit (Num 5)]}
           (<[1%nat := mkUnit Undefined]> {[0%nat := mkUnit (Num 5)]})
           (<[2%nat := mkUnit Undefined]>
              (<[1%nat := mkUnit Undefined]> {[0%nat := mkUnit (Num 5)]}))
           [EvGetSelectedUnit 1%nat; EvIsTriggered BUY_ACTION;
            EvNewCommand (mkModifyUnitCommand 1%nat NaN Undefined)]
           [EvGetSelectedUnit 2%nat; EvIsTriggered BUY_ACTION;
            EvNewCommand (mkModifyUnitCommand 2%nat NaN Undefined)]
           (mkModifyUnitCommand 1%nat NaN Undefined)
           (mkModifyUnitCommand 2%nat NaN Undefined)).
  - vm_compute. reflexivity.
  - vm_compute. reflexivity.
Defined.

End CommandMore.

(* ================================================================== *)
(** * Further properties of the observer *)
(* ================================================================== *)

Module ObserverMore.
Import Observer ObserverFacts.

(** ** Subscribing and unsubscribing *)

Lemma filter_ne_idemp (l : Listener) (ls : list Listener) :
  filter (fun x => x <> l) (filter (fun x => x <> l) ls)
  = filter (fun x => x <> l) ls.
Proof.
  apply filter_ne_id. intros H.
  apply list_elem_of_filter in H as [H _]. by apply H.
Qed.

Lemma filter_ne_fixed (l : Listener) (ls : list Listener) :
  filter (fun x => x <> l) ls = ls <-> l ∉ ls.
Proof.
  split; [|apply filter_ne_id].
  intros E Hin. rewrite <- E in Hin.
  apply list_elem_of_filter in Hin as [H _]. by apply H.
Qed.

(** X12: [unsubscribe] after [subscribe] of the same listener to the same key
    removes also the subscriptions the listener had before: the key is left
    with its earlier sequence without that listener, which is the earlier
    sequence exactly when the listener was not subscribed.  The other keys
    and the rest of the state are as they were. *)
Theorem subscribe_then_unsubscribe (k : string) (l : Listener) (w : World) :
  exists w1 w2,
    subscribe k l w = Ok w1
    /\ unsubscribe k l w1 = Ok w2
    /\ listeners_of k w2 = filter (fun x => x <> l) (listeners_of k w)
    /\ (listeners_of k w2 = listeners_of k w <-> l ∉ listeners_of k w)
    /\ (forall k', k' <> k -> listeners w2 !! k' = listeners w !! k')
    /\ file w2 = file w
    /\ io w2 = io w.
Proof.
  destruct (subscribe_spec k l w) as (w1 & E1 & Hk1 & Ho1 & Hf1 & Hi1).
  destruct (unsubscribe_spec k l w1) as (w2 & E2 & Hk2 & Ho2 & Hf2 & Hi2).
  assert (Hk : listeners_of k w2
               = filter (fun x => x <> l) (listeners_of k w)).
  { rewrite Hk2, Hk1, filter_app.
    rewrite (filter_cons_False _ l []) by (intros H; by apply H).
    by rewrite filter_nil, app_nil_r. }
  exists w1, w2. split; [done|]. split; [done|]. split; [done|].
  split; [rewrite Hk; apply filter_ne_fixed|].
  split; [intros k' Hne; by rewrite Ho2, Ho1|].
  split; congruence.
Qed.

(** X13: [unsubscribe] twice is [unsubscribe] once. *)
Theorem unsubscribe_idempotent (k : string) (l : Listener) (w : World) :
  (w1 ← unsubscribe k l w; unsubscribe k l w1) = unsubscribe k l w.
Proof.
  unfold unsubscribe. cbn [mbind result_bind].
  rewrite listeners_of_insert_eq. cbn [set_listeners listeners file io].
  by rewrite insert_insert_eq, filter_ne_idemp.
Qed.

(** X14: calls of [subscribe] and [unsubscribe] for different keys commute. *)
Theorem different_keys_commute
  (k1 k2 : string) (l1 l2 : Listener) (w : World) :
  k1 <> k2 ->
  (w1 ← subscribe k1 l1 w; subscribe k2 l2 w1)
    = (w1 ← subscribe k2 l2 w; subscribe k1 l1 w1)
  /\ (w1 ← subscribe k1 l1 w; unsubscribe k2 l2 w1)
    = (w1 ← unsubscribe k2 l2 w; subscribe k1 l1 w1)
  /\ (w1 ← unsubscribe k1 l1 w; unsubscribe k2 l2 w1)
    = (w1 ← unsubscribe k2 l2 w; unsubscribe k1 l1 w1).
Proof.
  intros Hne. unfold subscribe, unsubscribe. cbn [mbind result_bind].
  rewrite !listeners_of_insert_ne by done.
  unfold set_listeners. cbn [listeners file io].
  repeat split; f_equal; f_equal; by apply insert_insert_ne.
Qed.

Lemma different_keys_commute_witness :
  let w := registry_with "open" [1%nat] in
  (w1 ← subscribe "open" 2%nat w; subscribe "save" 3%nat w1)
    = (w1 ← subscribe "save" 3%nat w; subscribe "open" 2%nat w1)
  /\ (w1 ← subscribe "open" 2%nat w; unsubscribe "save" 3%nat w1)
    = (w1 ← unsubscribe "save" 3%nat w; subscribe "open" 2%nat w1)
  /\ (w1 ← unsubscribe "open" 2%nat w; unsubscribe "save" 3%nat w1)
    = (w1 ← unsubscribe "save" 3%nat w; unsubscribe "open" 2%nat w1).
Proof.
  apply (different_keys_commute "open" "save" 2%nat 3%nat
           (registry_with "open" [1%nat])).
  discriminate.
Defined.

(** ** [notify] with arbitrary listeners *)

(** X15: whatever the listeners do, throwing and changing the registry included,
    the calls of a [notify] go, in order, to an initial segment of the
    listeners the key had at entry, each with the payload passed; so there
    are no more calls than listeners. *)
Theorem notify_calls_subscribed
  (update : Listener -> Data -> World -> result World)
  (k : string) (d : Data) (w : World) :
  callees (notify update k d w).1 `prefix_of` listeners_of k w
  /\ Forall (fun c => payload c = d) (notify update k d w).1
  /\ (length (notify update k d w).1 <= length (listeners_of k w))%nat.
Proof.
  unfold notify.
  pose proof (dispatch_callees_prefix update (listeners_of k w) d w) as Hp.
  split; [done|]. split; [apply dispatch_payload|].
  apply prefix_length in Hp. unfold callees in Hp.
  by rewrite length_map in Hp.
Qed.

(** X16: after [unsubscribe] of a listener from a key, the next [notify] on that
    key does not call the listener, whatever the listeners do. *)
Theorem unsubscribed_not_called
  (update : Listener -> Data -> World -> result World)
  (k : string) (L : Listener) (d : Data) (w : World) :
  exists w',
    unsubscribe k L w = Ok w'
    /\ (L ∉ callees (notify update k d w').1).
Proof.
  destruct (unsubscribe_spec k L w) as (w' & E & Hf & _).
  exists w'. split; [done|]. intros Hin.
  pose proof (dispatch_callees_prefix update (listeners_of k w') d w')
    as [rest Hp].
  assert (H : L ∈ listeners_of k w').
  { rewrite Hp. apply elem_of_app. by left. }
  rewrite Hf in H. apply list_elem_of_filter in H as [H _]. by apply H.
Qed.

Lemma dispatch_app
  (update : Listener -> Data -> World -> result World)
  (l1 l2 : list Listener) (d : Data) (w w1 : World) (t1 : list call) :
  dispatch update l1 d w = (t1, Ok w1) ->
  dispatch update (l1 ++ l2) d w
  = (t1 ++ (dispatch update l2 d w1).1, (dispatch update l2 d w1).2).
Proof.
  revert w t1. induction l1 as [|l l1 IH]; intros w t1.
  - cbn. intros [= <- <-]. by destruct (dispatch update l2 d w).
  - destruct (update l d w) as [w'|e] eqn:E.
    + rewrite (dispatch_cons_Ok _ _ _ _ _ _ E).
      destruct (dispatch update l1 d w') as [t' r'] eqn:E1. cbn [fst snd].
      intros [= <- ->]. cbn [app].
      rewrite (dispatch_cons_Ok _ _ _ _ _ _ E), (IH _ _ E1). done.
    + rewrite (dispatch_cons_Throw _ _ _ _ _ _ E). discriminate.
Qed.

(** X17: a listener that throws ends the pass: the listeners before it have been
    called, it has been called, the listeners after it are not called, and
    [notify] throws what the listener threw. *)
Theorem notify_stops_at_throw
  (update : Listener -> Data -> World -> result World)
  (k : string) (d : Data) (w w1 : World)
  (l1 l2 : list Listener) (l : Listener) (t1 : list call) (e : exn) :
  listeners_of k w = l1 ++ l :: l2 ->
  dispatch update l1 d w = (t1, Ok w1) ->
  update l d w1 = Throw e ->
  notify update k d w = (t1 ++ [mkCall l d w1], Throw e)
  /\ callees (notify update k d w).1 = l1 ++ [l].
Proof.
  intros Hk H1 Hl. unfold notify. rewrite Hk.
  rewrite (dispatch_app _ _ _ _ _ _ _ H1).
  rewrite (dispatch_cons_Throw _ _ _ _ _ _ Hl). cbn [fst snd].
  split; [done|]. unfold callees. rewrite map_app. cbn.
  f_equal. change (map callee t1) with (callees (t1, Ok w1).1).
  rewrite <- H1. apply (dispatch_Ok_callees _ _ _ _ w1). by rewrite H1.
Qed.

Lemma notify_stops_at_throw_witness :
  let w := registry_with "save" [1%nat; 2%nat; 3%nat] in
  let update := throwing_update 2%nat in
  notify update "save" "x.txt" w
  = ([mkCall 1%nat "x.txt" w] ++ [mkCall 2%nat "x.txt" w],
     Throw (Error "update failed"))
  /\ callees (notify update "save" "x.txt" w).1 = [1%nat] ++ [2%nat].
Proof.
  apply (notify_stops_at_throw (throwing_update 2%nat) "save" "x.txt"
           (registry_with "save" [1%nat; 2%nat; 3%nat])
           (registry_with "save" [1%nat; 2%nat; 3%nat])
           [1%nat] [3%nat] 2%nat
           [mkCall 1%nat "x.txt" (registry_with "save" [1%nat; 2%nat; 3%nat])]
           (Error "update failed")).
  - apply listeners_of_registry_with.
  - reflexivity.
  - reflexivity.
Defined.

(** ** Listeners of the two concrete classes *)

Lemma update_object_event (o : ListenerObject) (d : Data) (w : World) :
  update_object o d w = Ok (add_io [event_of o] w).
Proof. by destruct o. Qed.

Lemma add_io_do_io (e : io_event) (es : list io_event) (w : World) :
  add_io es (do_io e w) = add_io (e :: es) w.
Proof. unfold add_io, do_io. cbn. by rewrite <- app_assoc. Qed.

Lemma dispatch_objects_outcome
  (objects : Listener -> ListenerObject)
  (ls : list Listener) (d : Data) (w : World) :
  (dispatch (update_objects objects) ls d w).2
  = Ok (add_io (map (fun l => event_of (objects l)) ls) w).
Proof.
  revert w. induction ls as [|l ls IH]; intros w.
  - cbn. unfold add_io. rewrite app_nil_r. by destruct w.
  - assert (E : update_objects objects l d w
                = Ok (do_io (event_of (objects l)) w)).
    { unfold update_objects. by rewrite update_object_event. }
    rewrite (dispatch_cons_Ok _ _ _ _ _ _ E). cbn [snd map].
    by rewrite IH, add_io_do_io.
Qed.

(** X18: when the listeners are loggers and e-mail alerters, a [notify] returns
    normally after calling every listener of the key, in order; it leaves
    the registry and the editor's file as they were, and the external calls
    it adds are one per listener, in the order of subscription, the same
    whatever the payload. *)
Theorem notify_objects
  (objects : Listener -> ListenerObject)
  (k : string) (d : Data) (w : World) :
  exists tr w',
    notify (update_objects objects) k d w = (tr, Ok w')
    /\ callees tr = listeners_of k w
    /\ listeners w' = listeners w
    /\ file w' = file w
    /\ io w' = io w ++ map (fun l => event_of (objects l)) (listeners_of k w).
Proof.
  unfold notify.
  pose proof (dispatch_objects_outcome objects (listeners_of k w) d w) as Ho.
  pose proof (dispatch_Ok_callees _ _ _ _ _ Ho) as Hc.
  destruct (dispatch (update_objects objects) (listeners_of k w) d w)
    as [tr r]. cbn [fst snd] in *. subst r.
  by eexists _, _.
Qed.

(** ** The editor with such listeners *)

(** X19: [openFile] followed by [saveFile]: both return normally; the listeners
    of "open" and then those of "save" are called with the path; the editor
    holds the file and the registry is as it was; and the external calls
    added are, in this order, those of the "open" listeners, the write of
    the file, and those of the "save" listeners. *)
Theorem open_then_save
  (objects : Listener -> ListenerObject) (path : Path) (w : World) :
  exists tr1 w1 tr2 w2,
    openFile (update_objects objects) path w = (tr1, Ok w1)
    /\ saveFile (update_objects objects) w1 = (tr2, Ok w2)
    /\ callees tr1 = listeners_of "open" w
    /\ callees tr2 = listeners_of "save" w
    /\ Forall (fun c => payload c = path) (tr1 ++ tr2)
    /\ listeners w2 = listeners w
    /\ file w2 = Some (mkFile path)
    /\ io w2
       = io w
         ++ map (fun l => event_of (objects l)) (listeners_of "open" w)
         ++ [IoWrite (mkFile path) None]
         ++ map (fun l => event_of (objects l)) (listeners_of "save" w).
Proof.
  destruct (notify_objects objects "open" path (set_file (mkFile path) w))
    as (tr1 & w1 & E1 & Hc1 & Hl1 & Hf1 & Hi1).
  assert (Hfile : file w1 = Some (mkFile path)) by (by rewrite Hf1).
  destruct (notify_objects objects "save" path
              (do_io (IoWrite (mkFile path) None) w1))
    as (tr2 & w2 & E2 & Hc2 & Hl2 & Hf2 & Hi2).
  exists tr1, w1, tr2, w2.
  assert (Ho : openFile (update_objects objects) path w = (tr1, Ok w1)).
  { unfold openFile. cbn [file set_file name]. done. }
  assert (Hs : saveFile (update_objects objects) w1 = (tr2, Ok w2)).
  { unfold saveFile. rewrite Hfile. cbn [file do_io]. rewrite Hfile.
    cbn [name]. done. }
  split; [done|]. split; [done|].
  split; [by rewrite Hc1|].
  assert (Hsave : listeners_of "save" (do_io (IoWrite (mkFile path) None) w1)
                  = listeners_of "save" w).
  { unfold listeners_of. cbn [listeners do_io]. by rewrite Hl1. }
  split; [by rewrite Hc2, Hsave|].
  split.
  { apply Forall_app. split.
    - pose proof (dispatch_payload (update_objects objects)
                    (listeners_of "open" (set_file (mkFile path) w)) path
                    (set_file (mkFile path) w)) as Hp.
      unfold notify in E1. by rewrite E1 in Hp.
    - pose proof (dispatch_payload (update_objects objects)
                    (listeners_of "save"
                       (do_io (IoWrite (mkFile path) None) w1)) path
                    (do_io (IoWrite (mkFile path) None) w1)) as Hp.
      unfold notify in E2. by rewrite E2 in Hp. }
  split; [by rewrite Hl2; cbn [listeners do_io]; rewrite Hl1|].
  split; [by rewrite Hf2; cbn [file do_io]|].
  rewrite Hi2, Hsave. cbn [io do_io]. rewrite Hi1. cbn [io set_file].
  rewrite listeners_of_set_file. by rewrite <- !app_assoc.
Qed.

(** ** Unsubscribing during a pass *)

Lemma unsubscribing_update_never_throws k L1 L2 :
  never_throws (unsubscribing_update k L1 L2).
Proof. intros l d w. unfold unsubscribing_update. by case_decide. Qed.

(** X20: a listener [L1] of the key [k] whose [update] calls
    [unsubscribe(k, L2)], for an [L2] that [k] has; no listener throws, and
    none subscribes [L2] again.  The pass of [notify] on [k] still invokes
    [update] of [L2] (it invokes exactly the listeners [k] had when it was
    entered, each on the state the one before it left), although [k] no
    longer has [L2] when the pass ends; the next [notify] on [k] does not
    call [L2]. *)
Theorem unsubscribed_during_pass
  (update : Listener -> Data -> World -> result World)
  (k : string) (d d' : Data) (w : World) (L1 L2 : Listener) :
  never_throws update ->
  L1 ∈ listeners_of k w ->
  L2 ∈ listeners_of k w ->
  (forall w0, update L1 d w0 = unsubscribe k L2 w0) ->
  (forall l w0 w1, l <> L1 -> update l d w0 = Ok w1 ->
     L2 ∉ listeners_of k w0 -> L2 ∉ listeners_of k w1) ->
  exists tr w',
    notify update k d w = (tr, Ok w')
    /\ callees tr = listeners_of k w
    /\ invoked update d w tr w'
    /\ L2 ∈ callees tr
    /\ (L2 ∉ listeners_of k w')
    /\ (L2 ∉ callees (notify update k d' w').1).
Proof.
  intros Hok H1 H2 Hun Hkeep.
  destruct (notify_invoked update k d w Hok) as (tr & w' & E & Hc & _ & Hi).
  assert (Hest : forall w0 w1,
             update L1 d w0 = Ok w1 -> L2 ∉ listeners_of k w1).
  { intros w0 w1. rewrite Hun.
    destruct (unsubscribe_spec k L2 w0) as (wb & -> & Hk & _).
    intros [= <-]. rewrite Hk. intros H.
    apply list_elem_of_filter in H as [H _]. by apply H. }
  assert (Hout : L2 ∉ listeners_of k w').
  { apply (dispatch_establishes update (fun x => L2 ∉ listeners_of k x)
             L1 (listeners_of k w) d w w' H1 Hest).
    - intros l w0 w1 Hu HP. destruct (decide (l = L1)) as [->|Hne].
      + by eapply Hest.
      + by eapply Hkeep.
    - unfold notify in E. by rewrite E. }
  exists tr, w'. split; [done|]. split; [done|]. split; [done|].
  split; [by rewrite Hc|]. split; [done|].
  intros Hcalled. apply Hout.
  pose proof (dispatch_callees_prefix update (listeners_of k w') d' w')
    as [rest Hp].
  rewrite Hp. apply elem_of_app. by left.
Qed.

Lemma unsubscribed_during_pass_witness :
  let update := unsubscribing_update "save" 1%nat 2%nat in
  let w := registry_with "save" [1%nat; 2%nat] in
  exists tr w',
    notify update "save" "a.txt" w = (tr, Ok w')
    /\ callees tr = listeners_of "save" w
    /\ invoked update "a.txt" w tr w'
    /\ 2%nat ∈ callees tr
    /\ (2%nat ∉ listeners_of "save" w')
    /\ (2%nat ∉ callees (notify update "save" "b.txt" w').1).
Proof.
  apply (unsubscribed_during_pass
           (unsubscribing_update "save" 1%nat 2%nat) "save" "a.txt" "b.txt"
           (registry_with "save" [1%nat; 2%nat]) 1%nat 2%nat).
  - apply unsubscribing_update_never_throws.
  - rewrite listeners_of_registry_with. apply elem_of_cons. by left.
  - rewrite listeners_of_registry_with.
    apply elem_of_cons. right. apply elem_of_cons. by left.
  - intros w0. reflexivity.
  - intros l w0 w1 Hne. unfold unsubscribing_update.
    rewrite decide_False by done. by intros [= <-].
Defined.

(** The same scenario, run: 1 unsubscribes 2, which is called all the same
    in the first pass and no more in the second. *)
Example unsubscribe_during_notify :
  let update := unsubscribing_update "save" 1%nat 2%nat in
  let w := registry_with "save" [1%nat; 2%nat] in
  exists tr w' tr' w'',
    notify update "save" "a.txt" w = (tr, Ok w')
    /\ callees tr = [1%nat; 2%nat]
    /\ listeners_of "save" w' = [1%nat]
    /\ notify update "save" "b.txt" w' = (tr', Ok w'')
    /\ callees tr' = [1%nat].
Proof.
  cbn zeta. eexists _, _, _, _.
  split; [vm_compute; reflexivity|].
  split; [vm_compute; reflexivity|].
  split; [vm_compute; reflexivity|].
  split; vm_compute; reflexivity.
Qed.

End ObserverMore.
